(** * PyLCOGT main driver (pylcogt/main.py): stage selection, query building
      and stage dispatch.

    The driver is embedded as it is written: the module-level ordered
    dictionary [reduction_stages], the function [get_telescope_info] and the
    console entry point [main].  Python values that the driver manipulates
    dynamically (a string used where an integer is needed) keep their dynamic
    type, exceptions are results, and the calls into the collaborating modules
    (dbs, logs, date_utils, the stage classes) are recorded as events. *)

From Stdlib Require Import String Ascii List ZArith Bool Lia.
Import ListNotations.
Open Scope string_scope.

(** ** The fragment of Python the driver relies on *)

Module Py.

(** Exceptions the driver can end with.  [SystemExit 2] is what
    [argparse] raises through [parser.error]; [Raised cls] is an exception
    coming out of a collaborating module. *)
Inductive exn : Type :=
| SystemExit (code : Z)
| TypeError
| ValueError
| KeyError (key : string)
| Raised (cls : string).

Inductive result (A : Type) : Type :=
| Ok (a : A)
| Raise (e : exn).
Arguments Ok {A} a.
Arguments Raise {A} e.

Definition bind {A B} (r : result A) (k : A -> result B) : result B :=
  match r with
  | Ok a => k a
  | Raise e => Raise e
  end.

(** Objects whose type is only known at run time. *)
Inductive value : Type :=
| Str (s : string)
| Int (z : Z).

(** [a + b]: concatenation on two [str], addition on two [int], and
    [TypeError] on a mix. *)
Definition add (a b : value) : result value :=
  match a, b with
  | Str s, Str t => Ok (Str (s ++ t))
  | Int x, Int y => Ok (Int (x + y))
  | _, _ => Raise TypeError
  end.

(** A slice bound of a list must be an integer. *)
Definition index (v : value) : result Z :=
  match v with
  | Int z => Ok z
  | Str _ => Raise TypeError
  end.

(** A slice bound clamped to [0 .. len], negative bounds counting from the
    end. *)
Definition clamp (len i : Z) : Z :=
  let j := if (i <? 0)%Z then (i + len)%Z else i in
  Z.max 0 (Z.min len j).

(** [l[start:stop]] *)
Definition slice {A} (l : list A) (start stop : value) : result (list A) :=
  bind (index start) (fun i =>
  bind (index stop) (fun j =>
    let len := Z.of_nat (List.length l) in
    let lo := clamp len i in
    let hi := clamp len j in
    Ok (firstn (Z.to_nat (hi - lo)) (skipn (Z.to_nat lo) l)))).

(** [c in s] for a one-character [c]. *)
Fixpoint contains (c : ascii) (s : string) : bool :=
  match s with
  | EmptyString => false
  | String d s' => Ascii.eqb c d || contains c s'
  end.

(** [s.split(sep)] for a one-character separator: the pieces between the
    separators, empty pieces included. *)
Fixpoint split (sep : ascii) (s : string) : list string :=
  match s with
  | EmptyString => [EmptyString]
  | String c s' =>
      if Ascii.eqb c sep then EmptyString :: split sep s'
      else match split sep s' with
           | piece :: pieces => String c piece :: pieces
           | [] => [String c EmptyString]
           end
  end.

(** [s.replace(old, new)]: every occurrence of [old], left to right and
    without overlap.  [skip] counts the characters of an occurrence still to
    be dropped. *)
Fixpoint replace_from (old new : string) (skip : nat) (s : string) : string :=
  match s with
  | EmptyString => EmptyString
  | String c s' =>
      match skip with
      | S k => replace_from old new k s'
      | O =>
          if String.prefix old s
          then new ++ replace_from old new (String.length old - 1) s'
          else String c (replace_from old new 0 s')
      end
  end.

(** With an empty [old], Python puts [new] around every character. *)
Fixpoint intersperse (new s : string) : string :=
  match s with
  | EmptyString => new
  | String c s' => new ++ String c (intersperse new s')
  end.

Definition replace (old new s : string) : string :=
  match old with
  | EmptyString => intersperse new s
  | _ => replace_from old new 0 s
  end.

(** [v in choices] on lists of strings. *)
Definition mem (v : string) (choices : list string) : bool :=
  existsb (String.eqb v) choices.

(** [int(s)] in base ten: blanks around, an optional sign, digits. *)
Definition is_space (c : ascii) : bool :=
  let n := nat_of_ascii c in
  Nat.eqb n 32 || (Nat.leb 9 n && Nat.leb n 13).

Definition digit (c : ascii) : option Z :=
  let n := nat_of_ascii c in
  if Nat.leb 48 n && Nat.leb n 57 then Some (Z.of_nat (n - 48)) else None.

Fixpoint lstrip (s : string) : string :=
  match s with
  | String c s' => if is_space c then lstrip s' else s
  | EmptyString => EmptyString
  end.

Fixpoint all_space (s : string) : bool :=
  match s with
  | EmptyString => true
  | String c s' => is_space c && all_space s'
  end.

(** Digits read so far are in [acc]; [seen] tells whether there was one. *)
Fixpoint digits (acc : Z) (seen : bool) (s : string) : option Z :=
  match s with
  | EmptyString => if seen then Some acc else None
  | String c s' =>
      match digit c with
      | Some d => digits (acc * 10 + d) true s'
      | None => if seen && all_space s then Some acc else None
      end
  end.

Definition int (s : string) : result Z :=
  let r :=
    match lstrip s with
    | String "-" s' => option_map Z.opp (digits 0 false s')
    | String "+" s' => digits 0 false s'
    | s' => digits 0 false s'
    end in
  match r with
  | Some z => Ok z
  | None => Raise ValueError
  end.

End Py.

Import Py.

Notation "x <- r ;; k" := (Py.bind r (fun x => k))
  (at level 61, r at next level, right associativity).

(** ** The stage registry (main.py, lines 22-33) *)

(** The classes the registry maps the stage names to. *)
Inductive StageClass : Type :=
| Ingest | MakeBias | SubtractBias | Trim | MakeDark
| SubtractDark | MakeFlat | DivideFlat | Astrometry | Catalog.

(** An [OrderedDict], filled in this order. *)
Definition reduction_stages : list (string * StageClass) :=
  [ ("ingest", Ingest);
    ("make_bias", MakeBias);
    ("subtract_bias", SubtractBias);
    ("trim", Trim);
    ("make_dark", MakeDark);
    ("subtract_dark", SubtractDark);
    ("make_flat", MakeFlat);
    ("divide_flat", DivideFlat);
    ("solve_wcs", Astrometry);
    ("make_catalog", Catalog) ].

Definition keys {V} (d : list (string * V)) : list string := map fst d.

(** [d[k]] *)
Fixpoint getitem {V} (d : list (string * V)) (k : string) : result V :=
  match d with
  | [] => Raise (KeyError k)
  | (k', v) :: d' => if String.eqb k k' then Ok v else getitem d' k
  end.

(** ** Stage selection *)

(** What [argparse] does with an optional argument declared with [choices]
    and a [default]: the default when the option is absent (it is not checked
    against the choices), the given value when it is one of the choices, and
    [parser.error], that is exit status 2, otherwise. *)
Definition optional_choice (default : string) (choices : list string)
    (given : option string) : result string :=
  match given with
  | None => Ok default
  | Some v => if mem v choices then Ok v else Raise (SystemExit 2)
  end.

(** Lines 98-99: the [--stage] option. *)
Definition stage_option (given : option string) : result string :=
  optional_choice "" (keys reduction_stages) given.

(** Lines 127-136, on the parsed [args.stage]. *)
Definition stages_to_do (stage : string) : result (list string) :=
  let reduction_stage_list := keys reduction_stages in
  if negb (String.eqb stage "") then
    if contains "-" stage then
      match split "-" stage with
      | [starting_stage; ending_stage] =>
          stop <- add (Str ending_stage) (Int 1) ;;
          slice reduction_stage_list (Str starting_stage) stop
      | _ => Raise ValueError
      end
    else Ok [stage]
  else Ok reduction_stage_list.

(** Stage selection as a run of [main] performs it: the [--stage] option
    goes through [argparse], then through lines 127-136. *)
Definition select (given : option string) : result (list string) :=
  stage <- stage_option given ;;
  stages_to_do stage.

(** ** The metadata store (module dbs) *)

Module dbs.

Module Telescope.
(** A row of the telescope table; the driver reads these four columns
    (lines 58-70 and 143-153). *)
Record t : Type := {
  site : string;
  instrument : string;
  telescope_id : string;
  camera_type : string
}.
End Telescope.

Module Image.
(** Modelled from the spec: the declaration of the image table is in the
    module dbs, which is not part of the driver.  The driver names the
    columns [filter_name] and [ccdsum] (lines 160 and 164); the spec's data
    model gives an image an image type as well. *)
Record t : Type := {
  filter_name : string;
  ccdsum : string;
  image_type : string
}.
End Image.

End dbs.

(** ** Query expressions (sqlalchemy.sql.expression) *)

Module sql.

(** The expressions the driver builds over the rows [R] of one table:
    [true()], [column == value] and [a & b].  A column is its projection. *)
Inductive expression (R : Type) : Type :=
| true_
| eq (column : R -> string) (v : string)
| and_ (a b : expression R).
Arguments true_ {R}.
Arguments eq {R} column v.
Arguments and_ {R} a b.

(** Whether a row satisfies an expression. *)
Fixpoint holds {R} (q : expression R) (row : R) : bool :=
  match q with
  | true_ => true
  | eq column v => String.eqb (column row) v
  | and_ a b => holds a row && holds b row
  end.

(** [session.query(Table).filter(q).all()] *)
Definition all {R} (q : expression R) (table : list R) : list R :=
  List.filter (holds q) table.

(** [session.query(column).distinct()] *)
Definition distinct {R} (column : R -> string) (table : list R) : list string :=
  nodup string_dec (map column table).

(** The equality constraints an expression is the conjunction of. *)
Fixpoint constraints {R} (q : expression R) : list ((R -> string) * string) :=
  match q with
  | true_ => []
  | eq column v => [(column, v)]
  | and_ a b => constraints a ++ constraints b
  end.

End sql.

(** ** The command line and the parsed arguments (lines 87-120) *)

Module argv.
(** The value given to each option on the command line, [None] for an
    option that is absent.  These are the options the parser declares with a
    value; [-h], which [argparse] adds by itself and which prints the help
    and exits with status 0, is not among them. *)
Record t : Type := {
  epoch : option string;
  telescope : option string;
  instrument : option string;
  site : option string;
  camera_type : option string;
  stage : option string;
  raw_path : option string;
  processed_path : option string;
  filter : option string;
  binning : option string;
  image_type : option string;
  log_level : option string;
  ncpus : option string
}.
End argv.

Module args.
(** The namespace [parser.parse_args] returns. *)
Record t : Type := {
  epoch : string;
  telescope : string;
  instrument : string;
  site : string;
  camera_type : string;
  stage : string;
  raw_path : string;
  processed_path : string;
  filter : string;
  binning : string;
  image_type : string;
  log_level : string;
  ncpus : Z
}.
End args.

(** A required option: [parser.error] when it is absent. *)
Definition required (given : option string) : result string :=
  match given with
  | Some v => Ok v
  | None => Raise (SystemExit 2)
  end.

(** An optional argument without choices. *)
Definition optional (default : string) (given : option string) : result string :=
  match given with
  | Some v => Ok v
  | None => Ok default
  end.

(** An optional argument with [type=int]: a value [int] refuses is a
    [parser.error]. *)
Definition optional_int (default : Z) (given : option string) : result Z :=
  match given with
  | None => Ok default
  | Some v =>
      match int v with
      | Ok z => Ok z
      | Raise _ => Raise (SystemExit 2)
      end
  end.

(** Lines 87-120.  Every refusal is the same exception, [SystemExit 2], so
    the order in which the options are looked at does not show. *)
Definition parse_args
    (all_sites all_instruments all_telescope_ids all_camera_types : list string)
    (cmd_args : argv.t) : result args.t :=
  epoch <- required (argv.epoch cmd_args) ;;
  telescope <- optional_choice "" all_telescope_ids (argv.telescope cmd_args) ;;
  instrument <- optional_choice "" all_instruments (argv.instrument cmd_args) ;;
  site <- optional_choice "" all_sites (argv.site cmd_args) ;;
  camera_type <- optional_choice "" all_camera_types (argv.camera_type cmd_args) ;;
  stage <- stage_option (argv.stage cmd_args) ;;
  raw_path <- optional "/archive/engineering" (argv.raw_path cmd_args) ;;
  processed_path <- optional "/nethome/supernova/pylcogt" (argv.processed_path cmd_args) ;;
  filter <- optional_choice ""
              ["sloan"; "landolt"; "apass"; "up"; "gp"; "rp"; "ip"; "zs";
               "U"; "B"; "V"; "R"; "I"] (argv.filter cmd_args) ;;
  binning <- optional_choice "" ["1x1"; "2x2"] (argv.binning cmd_args) ;;
  image_type <- optional_choice "" ["BIAS"; "DARK"; "SKYFLAT"; "EXPOSE"]
                  (argv.image_type cmd_args) ;;
  log_level <- optional_choice "info"
                 ["debug"; "info"; "warning"; "critical"; "fatal"; "error"]
                 (argv.log_level cmd_args) ;;
  ncpus <- optional_int 1 (argv.ncpus cmd_args) ;;
  Ok {| args.epoch := epoch; args.telescope := telescope;
        args.instrument := instrument; args.site := site;
        args.camera_type := camera_type; args.stage := stage;
        args.raw_path := raw_path; args.processed_path := processed_path;
        args.filter := filter; args.binning := binning;
        args.image_type := image_type; args.log_level := log_level;
        args.ncpus := ncpus |}.

(** ** The two queries (lines 141-153 and 157-164) *)

Definition nonempty (s : string) : bool := negb (String.eqb s "").

(** [q &= column == v] under [if v != '']. *)
Definition and_if_set {R} (q : sql.expression R) (column : R -> string)
    (v : string) : sql.expression R :=
  if nonempty v then sql.and_ q (sql.eq column v) else q.

Definition telescope_query (a : args.t) : sql.expression dbs.Telescope.t :=
  let q := sql.true_ in
  let q := and_if_set q dbs.Telescope.site (args.site a) in
  let q := and_if_set q dbs.Telescope.instrument (args.instrument a) in
  let q := and_if_set q dbs.Telescope.telescope_id (args.telescope a) in
  let q := and_if_set q dbs.Telescope.camera_type (args.camera_type a) in
  q.

(** Line 163. *)
Definition ccdsum (binning : string) : string := replace "x" " " binning.

Definition image_query (a : args.t) : sql.expression dbs.Image.t :=
  let q := sql.true_ in
  let q := and_if_set q dbs.Image.filter_name (args.filter a) in
  let q := if nonempty (args.binning a)
           then sql.and_ q (sql.eq dbs.Image.ccdsum (ccdsum (args.binning a)))
           else q in
  q.

(** ** Runs of the driver *)

Section Driver.

(** What the driver takes from the modules it imports.  An element of the
    list [date_utils.parse_epoch_string] returns, the world outside the
    driver (files, the image table), and a stage object. *)
Variable Epoch : Type.
Variable Outside : Type.
Variable Processor : Type.

(** The store as the driver sees it: the rows of the telescope table. *)
Record World : Type := {
  telescopes : list dbs.Telescope.t;
  outside : Outside
}.

(** [date_utils.parse_epoch_string], the constructor of a stage class and
    the [run] method of a stage object. *)
Variable parse_epoch_string : string -> result (list Epoch).
Variable construct :
  StageClass -> string -> string -> sql.expression dbs.Image.t ->
  World -> result Processor * World.
Variable run :
  Processor -> list Epoch -> list dbs.Telescope.t ->
  World -> result unit * World.

(** The calls a run makes out of the driver, in the order it makes them.
    [stage_returned] marks the return of a [run] call. *)
Inductive Event : Type :=
| print_argv
| dbs_get_session
| query_distinct (column : dbs.Telescope.t -> string)
| query_telescopes (q : sql.expression dbs.Telescope.t)
| session_close
| logs_start_logging (log_level : string)
| date_utils_parse_epoch_string (epoch : string)
| logs_get_logger (name : string)
| logger_info (msg : string)
| logs_stop_logging
| stage_init (stage : string) (raw_path processed_path : string)
    (q : sql.expression dbs.Image.t)
| stage_run (stage : string) (epoch_list : list Epoch)
    (telescope_list : list dbs.Telescope.t)
| stage_returned (stage : string).

(** The events that touch the metadata store. *)
Definition store_access (e : Event) : bool :=
  match e with
  | dbs_get_session | query_distinct _ | query_telescopes _ | session_close => true
  | _ => false
  end.

(** The events that construct or invoke a stage. *)
Definition constructed (e : Event) : option string :=
  match e with
  | stage_init stage _ _ _ => Some stage
  | _ => None
  end.

Definition invoked (e : Event) : option string :=
  match e with
  | stage_run stage _ _ => Some stage
  | _ => None
  end.

Fixpoint collect {A B} (f : A -> option B) (l : list A) : list B :=
  match l with
  | [] => []
  | a :: l' => match f a with
               | Some b => b :: collect f l'
               | None => collect f l'
               end
  end.

(** A computation of the driver: from a world, a result or an exception,
    the events on the way and the world it leaves. *)
Record Outcome (A : Type) : Type := {
  res : result A;
  events : list Event;
  final : World
}.
Arguments res {A} o.
Arguments events {A} o.
Arguments final {A} o.

Definition M (A : Type) : Type := World -> Outcome A.

Definition ret {A} (a : A) : M A :=
  fun w => {| res := Ok a; events := []; final := w |}.

Definition bindM {A B} (m : M A) (k : A -> M B) : M B :=
  fun w =>
    let o := m w in
    match res o with
    | Ok a =>
        let o' := k a (final o) in
        {| res := res o'; events := events o ++ events o'; final := final o' |}
    | Raise e => {| res := Raise e; events := events o; final := final o |}
    end.

Definition lift {A} (r : result A) : M A :=
  fun w => {| res := r; events := []; final := w |}.

Definition emit (e : Event) : M unit :=
  fun w => {| res := Ok tt; events := [e]; final := w |}.

(** A call out of the driver that can raise and change the world. *)
Definition call {A} (e : Event) (f : World -> result A * World) : M A :=
  fun w => {| res := fst (f w); events := [e]; final := snd (f w) |}.

(** An outcome with more events in front. *)
Definition after {A} (evs : list Event) (o : Outcome A) : Outcome A :=
  {| res := res o; events := evs ++ events o; final := final o |}.

Notation "'let*' x ':=' m 'in' k" := (bindM m (fun x => k))
  (at level 10, x name, m at level 100, k at level 200).
Notation "m ';;;' k" := (bindM m (fun _ => k))
  (at level 100, k at level 200, right associativity).

(** [for x in db_session.query(column).distinct(): out.append(x[0])].
    Here and below the store is taken to answer: [dbs.get_session], the
    queries and [close] return, as do the calls into [logs]. *)
Definition distinct_query (column : dbs.Telescope.t -> string) : M (list string) :=
  fun w => {| res := Ok (sql.distinct column (telescopes w));
              events := [query_distinct column]; final := w |}.

(** Lines 36-75. *)
Definition get_telescope_info
  : M (list string * list string * list string * list string) :=
  emit dbs_get_session ;;;
  let* all_sites := distinct_query dbs.Telescope.site in
  let* all_instruments := distinct_query dbs.Telescope.instrument in
  let* all_telescope_ids := distinct_query dbs.Telescope.telescope_id in
  let* all_camera_types := distinct_query dbs.Telescope.camera_type in
  emit session_close ;;;
  ret (all_sites, all_instruments, all_telescope_ids, all_camera_types).

(** What [get_telescope_info] asks the store, line 85. *)
Definition discovery : list Event :=
  [ dbs_get_session;
    query_distinct dbs.Telescope.site;
    query_distinct dbs.Telescope.instrument;
    query_distinct dbs.Telescope.telescope_id;
    query_distinct dbs.Telescope.camera_type;
    session_close ].

(** Line 155. *)
Definition telescope_list (q : sql.expression dbs.Telescope.t)
  : M (list dbs.Telescope.t) :=
  fun w => {| res := Ok (sql.all q (telescopes w));
              events := [query_telescopes q]; final := w |}.

(** Lines 170-173: the loop over [stages_to_do]. *)
Fixpoint dispatch (a : args.t) (q : sql.expression dbs.Image.t)
    (epoch_list : list Epoch) (tels : list dbs.Telescope.t)
    (stages : list string) : M unit :=
  match stages with
  | [] => ret tt
  | stage :: rest =>
      let* cls := lift (getitem reduction_stages stage) in
      let* stage_to_run :=
        call (stage_init stage (args.raw_path a) (args.processed_path a) q)
             (construct cls (args.raw_path a) (args.processed_path a) q) in
      call (stage_run stage epoch_list tels)
           (run stage_to_run epoch_list tels) ;;;
      emit (stage_returned stage) ;;;
      dispatch a q epoch_list tels rest
  end.

(** The events of one turn of the loop in which the stage is constructed,
    run and returns. *)
Definition steps (a : args.t) (q : sql.expression dbs.Image.t)
    (epoch_list : list Epoch) (tels : list dbs.Telescope.t)
    (stage : string) : list Event :=
  [ stage_init stage (args.raw_path a) (args.processed_path a) q;
    stage_run stage epoch_list tels;
    stage_returned stage ].

(** Lines 122-176: what [main] does with the parsed arguments. *)
Definition reduce (a : args.t) : M unit :=
  emit (logs_start_logging (args.log_level a)) ;;;
  let* epoch_list :=
    call (date_utils_parse_epoch_string (args.epoch a))
         (fun w => (parse_epoch_string (args.epoch a), w)) in
  let* stages := lift (stages_to_do (args.stage a)) in
  emit dbs_get_session ;;;
  let* tels := telescope_list (telescope_query a) in
  emit session_close ;;;
  emit (logs_get_logger "Main") ;;;
  emit (logger_info "Starting pylcogt:") ;;;
  dispatch a (image_query a) epoch_list tels stages ;;;
  emit logs_stop_logging.

(** Lines 78-176. *)
Definition main (cmd_args : argv.t) : M unit :=
  emit print_argv ;;;
  let* info := get_telescope_info in
  let '(all_sites, all_instruments, all_telescope_ids, all_camera_types) := info in
  let* a := lift (parse_args all_sites all_instruments all_telescope_ids
                             all_camera_types cmd_args) in
  reduce a.

End Driver.

Arguments print_argv {Epoch}.
Arguments dbs_get_session {Epoch}.
Arguments query_distinct {Epoch} column.
Arguments query_telescopes {Epoch} q.
Arguments session_close {Epoch}.
Arguments logs_start_logging {Epoch} log_level.
Arguments date_utils_parse_epoch_string {Epoch} epoch.
Arguments logs_get_logger {Epoch} name.
Arguments logger_info {Epoch} msg.
Arguments logs_stop_logging {Epoch}.
Arguments stage_init {Epoch} stage raw_path processed_path q.
Arguments stage_run {Epoch} stage epoch_list telescope_list.
Arguments stage_returned {Epoch} stage.
Arguments steps {Epoch} a q epoch_list tels stage.
Arguments discovery {Epoch}.
Arguments telescopes {Outside} w.
Arguments outside {Outside} w.
Arguments res {Epoch Outside A} o.
Arguments events {Epoch Outside A} o.
Arguments final {Epoch Outside A} o.
Arguments store_access {Epoch} e.
Arguments constructed {Epoch} e.
Arguments invoked {Epoch} e.

Arguments ret {Epoch Outside A} a w.
Arguments bindM {Epoch Outside A B} m k w.
Arguments lift {Epoch Outside A} r w.
Arguments emit {Epoch Outside} e w.
Arguments call {Epoch Outside A} e f w.
Arguments after {Epoch Outside A} evs o.
Arguments telescope_list {Epoch Outside} q w.
Arguments dispatch {Epoch Outside Processor} construct run a q epoch_list tels stages w.
Arguments reduce {Epoch Outside Processor} parse_epoch_string construct run a w.
Arguments main {Epoch Outside Processor} parse_epoch_string construct run cmd_args w.

(** ** Changing one parsed argument *)

Definition with_ncpus (n : Z) (a : args.t) : args.t :=
  {| args.epoch := args.epoch a; args.telescope := args.telescope a;
     args.instrument := args.instrument a; args.site := args.site a;
     args.camera_type := args.camera_type a; args.stage := args.stage a;
     args.raw_path := args.raw_path a;
     args.processed_path := args.processed_path a;
     args.filter := args.filter a; args.binning := args.binning a;
     args.image_type := args.image_type a;
     args.log_level := args.log_level a; args.ncpus := n |}.

Definition with_image_type (t : string) (a : args.t) : args.t :=
  {| args.epoch := args.epoch a; args.telescope := args.telescope a;
     args.instrument := args.instrument a; args.site := args.site a;
     args.camera_type := args.camera_type a; args.stage := args.stage a;
     args.raw_path := args.raw_path a;
     args.processed_path := args.processed_path a;
     args.filter := args.filter a; args.binning := args.binning a;
     args.image_type := t;
     args.log_level := args.log_level a; args.ncpus := args.ncpus a |}.

(** ** A run environment for the examples *)

Module demo.

(** A stand-in for [date_utils.parse_epoch_string], good for one day written
    as eight digits; anything else raises. *)
Definition parse_epoch_string (epoch : string) : result (list string) :=
  match digits 0 false epoch with
  | Some _ =>
      if Nat.eqb (String.length epoch) 8 then Ok [epoch]
      else Raise (Raised "InvalidEpochError")
  | None => Raise (Raised "InvalidEpochError")
  end.

(** Stage objects that remember their class; the world outside counts the
    runs that returned, and [Trim] raises. *)
Definition construct (cls : StageClass) (raw_path processed_path : string)
    (q : sql.expression dbs.Image.t) (w : World nat)
  : result StageClass * World nat :=
  (Ok cls, w).

Definition run (p : StageClass) (epoch_list : list string)
    (tels : list dbs.Telescope.t) (w : World nat)
  : result unit * World nat :=
  match p with
  | Trim => (Raise (Raised "IOError"), w)
  | _ => (Ok tt, {| telescopes := telescopes w; outside := S (outside w) |})
  end.

Definition world : World nat :=
  {| telescopes :=
       [ {| dbs.Telescope.site := "lsc"; dbs.Telescope.instrument := "kb78";
            dbs.Telescope.telescope_id := "1m0-009";
            dbs.Telescope.camera_type := "SBig" |};
         {| dbs.Telescope.site := "elp"; dbs.Telescope.instrument := "fl05";
            dbs.Telescope.telescope_id := "1m0-008";
            dbs.Telescope.camera_type := "Sinistro" |} ];
     outside := 0 |}.

(** A command line with [--epoch] and, when given, [--stage] and [--ncpus]. *)
Definition cmd_args (epoch : string) (stage ncpus : option string) : argv.t :=
  {| argv.epoch := Some epoch; argv.telescope := None;
     argv.instrument := None; argv.site := None; argv.camera_type := None;
     argv.stage := stage; argv.raw_path := None; argv.processed_path := None;
     argv.filter := None; argv.binning := None; argv.image_type := None;
     argv.log_level := None; argv.ncpus := ncpus |}.

(** Parsed arguments with the given criteria and the defaults elsewhere. *)
Definition parsed (site filter binning image_type log_level : string)
    (ncpus : Z) : args.t :=
  {| args.epoch := "20151001"; args.telescope := "";
     args.instrument := ""; args.site := site; args.camera_type := "";
     args.stage := ""; args.raw_path := "/archive/engineering";
     args.processed_path := "/nethome/supernova/pylcogt";
     args.filter := filter; args.binning := binning;
     args.image_type := image_type;
     args.log_level := log_level; args.ncpus := ncpus |}.

(** A run on a command line whose epoch is no date. *)
Definition bad_epoch_run : Outcome string nat unit :=
  main parse_epoch_string construct run (cmd_args "2015-13-45" None None) world.

(** The loop of lines 170-173 in this environment. *)
Definition loop (stages : list string) : World nat -> Outcome string nat unit :=
  dispatch construct run (parsed "" "" "" "" "info" 1) sql.true_
           ["20151001"] (telescopes world) stages.

End demo.

(** No criterion is set. *)
Definition no_criteria (a : args.t) : Prop :=
  args.site a = "" /\ args.instrument a = "" /\ args.telescope a = "" /\
  args.camera_type a = "" /\ args.filter a = "" /\ args.binning a = "" /\
  args.image_type a = "".

(** Two sets of arguments with the same telescope criteria. *)
Definition same_telescope_criteria (a b : args.t) : Prop :=
  args.site a = args.site b /\ args.instrument a = args.instrument b /\
  args.telescope a = args.telescope b /\
  args.camera_type a = args.camera_type b.

(** ** Stage selection: properties *)

(** [a] comes strictly before [b] in [l]. *)
Definition before (a b : string) (l : list string) : Prop :=
  exists i j, nth_error l i = Some a /\ nth_error l j = Some b /\ i < j.

(** A stage value that names a stage the registry does not have: alone, or
    as the start or the end of a range. *)
Definition names_unknown_stage (spec : string) : Prop :=
  (contains "-" spec = false /\ ~ In spec (keys reduction_stages)) \/
  (exists starting_stage ending_stage,
      spec = starting_stage ++ "-" ++ ending_stage /\
      (~ In starting_stage (keys reduction_stages) \/
       ~ In ending_stage (keys reduction_stages))).

(** The two failures of stage selection read as two exceptions of the
    driver: a value naming an unknown stage ends with the first, a range
    whose start comes after its end with the second. *)
Definition selection_errors (UnknownStageError InvalidRangeError : exn) : Prop :=
  UnknownStageError <> InvalidRangeError /\
  (forall spec, names_unknown_stage spec ->
     select (Some spec) = Raise UnknownStageError) /\
  (forall starting_stage ending_stage,
     before ending_stage starting_stage (keys reduction_stages) ->
     select (Some (starting_stage ++ "-" ++ ending_stage)) = Raise InvalidRangeError).

(** ** Further notions for the properties below *)

(** How many times the character [c] occurs in [s]. *)
Fixpoint occurrences (c : ascii) (s : string) : nat :=
  match s with
  | EmptyString => 0
  | String d s' => (if Ascii.eqb d c then 1 else 0) + occurrences c s'
  end.

(** A telescope row agrees with every telescope criterion that is set. *)
Definition matches_telescope (a : args.t) (t : dbs.Telescope.t) : Prop :=
  (args.site a = "" \/ dbs.Telescope.site t = args.site a) /\
  (args.instrument a = "" \/ dbs.Telescope.instrument t = args.instrument a) /\
  (args.telescope a = "" \/ dbs.Telescope.telescope_id t = args.telescope a) /\
  (args.camera_type a = "" \/ dbs.Telescope.camera_type t = args.camera_type a).

(** An image row agrees with the filter and the binning when they are set. *)
Definition matches_image (a : args.t) (i : dbs.Image.t) : Prop :=
  (args.filter a = "" \/ dbs.Image.filter_name i = args.filter a) /\
  (args.binning a = "" \/ dbs.Image.ccdsum i = ccdsum (args.binning a)).

(** A value some row of the table has in the column. *)
Definition in_column {R} (column : R -> string) (table : list R) (v : string) : Prop :=
  exists row, In row table /\ column row = v.

(** An option of the command line that was either left out, the parsed value
    being the default, or given with a value that is in the column. *)
Definition absent_or_in_column (column : dbs.Telescope.t -> string)
    (table : list dbs.Telescope.t) (given : option string) (v : string) : Prop :=
  (given = None /\ v = "") \/ (given = Some v /\ in_column column table v).

(** The parsing of a command line as [main] does it in the world [w]: the
    choices are what [get_telescope_info] finds in the store. *)
Definition parse_in {Outside} (w : World Outside) (cmd_args : argv.t)
  : result args.t :=
  parse_args (sql.distinct dbs.Telescope.site (telescopes w))
             (sql.distinct dbs.Telescope.instrument (telescopes w))
             (sql.distinct dbs.Telescope.telescope_id (telescopes w))
             (sql.distinct dbs.Telescope.camera_type (telescopes w))
             cmd_args.

(** An event of the loop of lines 170-173 over [stages]: the construction,
    the run or the return of one of the stages, with the arguments the loop
    passes. *)
Definition stage_event {Epoch} (a : args.t) (q : sql.expression dbs.Image.t)
    (epoch_list : list Epoch) (tels : list dbs.Telescope.t)
    (stages : list string) (e : Event Epoch) : Prop :=
  exists stage, In stage stages /\
    (e = stage_init stage (args.raw_path a) (args.processed_path a) q \/
     e = stage_run stage epoch_list tels \/
     e = stage_returned stage).


(** What a run does before the loop, once the command line is parsed. *)
Definition preamble {Epoch} (a : args.t) : list (Event Epoch) :=
  [ logs_start_logging (args.log_level a);
    date_utils_parse_epoch_string (args.epoch a);
    dbs_get_session;
    query_telescopes (telescope_query a);
    session_close;
    logs_get_logger "Main";
    logger_info "Starting pylcogt:" ].

(** A command line for the examples: one site, one binning, one stage. *)
Definition lsc_cmd_args : argv.t :=
  {| argv.epoch := Some "20151001"; argv.telescope := None;
     argv.instrument := None; argv.site := Some "lsc";
     argv.camera_type := None; argv.stage := Some "make_bias";
     argv.raw_path := None; argv.processed_path := None;
     argv.filter := None; argv.binning := Some "2x2";
     argv.image_type := None; argv.log_level := None; argv.ncpus := None |}.

(** What it parses to. *)
Definition lsc_args : args.t :=
  {| args.epoch := "20151001"; args.telescope := "";
     args.instrument := ""; args.site := "lsc"; args.camera_type := "";
     args.stage := "make_bias"; args.raw_path := "/archive/engineering";
     args.processed_path := "/nethome/supernova/pylcogt";
     args.filter := ""; args.binning := "2x2"; args.image_type := "";
     args.log_level := "info"; args.ncpus := 1 |}.

(** Stage collaborators for the examples that refuse what the driver does
    not pass: a constructor that raises on any paths but the default ones and
    a [run] that raises on an empty epoch list or an empty telescope list. *)
Definition picky_construct (cls : StageClass) (raw_path processed_path : string)
    (q : sql.expression dbs.Image.t) (w : World nat)
  : result StageClass * World nat :=
  if String.eqb raw_path "/archive/engineering" &&
     String.eqb processed_path "/nethome/supernova/pylcogt"
  then demo.construct cls raw_path processed_path q w
  else (Raise (Raised "IOError"), w).

Definition picky_run (p : StageClass) (epoch_list : list string)
    (tels : list dbs.Telescope.t) (w : World nat)
  : result unit * World nat :=
  match epoch_list, tels with
  | _ :: _, _ :: _ => demo.run p epoch_list tels w
  | _, _ => (Raise (Raised "ValueError"), w)
  end.

(** ** What the stages themselves do *)

Section StageOutcomes.

Variables Epoch Outside Processor : Type.
Variable construct :
  StageClass -> string -> string -> sql.expression dbs.Image.t ->
  World Outside -> result Processor * World Outside.
Variable run :
  Processor -> list Epoch -> list dbs.Telescope.t ->
  World Outside -> result unit * World Outside.
Variable a : args.t.
Variable q : sql.expression dbs.Image.t.
Variable epoch_list : list Epoch.
Variable tels : list dbs.Telescope.t.

(** The stages of a list all return: from the first world, the class of
    each is in the registry, its constructor on the two paths and the image
    query returns an object, and [run] of that object on the epochs and the
    telescopes returns, each call starting in the world the one before it
    left.  The last world is the one the last [run] leaves. *)
Inductive all_return : list string -> World Outside -> World Outside -> Prop :=
| all_return_nil : forall w, all_return [] w w
| all_return_cons : forall stage rest cls p w w1 w2 w3,
    getitem reduction_stages stage = Ok cls ->
    construct cls (args.raw_path a) (args.processed_path a) q w = (Ok p, w1) ->
    run p epoch_list tels w1 = (Ok tt, w2) ->
    all_return rest w2 w3 ->
    all_return (stage :: rest) w w3.

(** A stage raises [e] from a world: at the lookup of its class, in its
    constructor, or in [run] of the object its constructor returned.  With
    it, the calls made for the stage up to the raise and the world the
    raising call leaves. *)
Inductive stage_raises (stage : string) (w : World Outside)
  : exn -> list (Event Epoch) -> World Outside -> Prop :=
| raises_at_lookup : forall e,
    getitem reduction_stages stage = Raise e ->
    stage_raises stage w e [] w
| raises_in_constructor : forall cls e w1,
    getitem reduction_stages stage = Ok cls ->
    construct cls (args.raw_path a) (args.processed_path a) q w = (Raise e, w1) ->
    stage_raises stage w e
      [stage_init stage (args.raw_path a) (args.processed_path a) q] w1
| raises_in_run : forall cls p w1 e w2,
    getitem reduction_stages stage = Ok cls ->
    construct cls (args.raw_path a) (args.processed_path a) q w = (Ok p, w1) ->
    run p epoch_list tels w1 = (Raise e, w2) ->
    stage_raises stage w e
      [stage_init stage (args.raw_path a) (args.processed_path a) q;
       stage_run stage epoch_list tels] w2.

End StageOutcomes.

Arguments all_return {Epoch Outside Processor} construct run a q epoch_list tels _ _ _.
Arguments stage_raises {Epoch Outside Processor} construct run a q epoch_list tels
  stage w _ _ _.

Lemma mem_In (v : string) (l : list string) : mem v l = true <-> In v l.
Proof.
  unfold mem. rewrite existsb_exists. split.
  - intros [x [Hx Heq]]. apply String.eqb_eq in Heq. now subst.
  - intros H. exists v. split; [assumption | apply String.eqb_refl].
Qed.

Lemma mem_not_In (v : string) (l : list string) : ~ In v l -> mem v l = false.
Proof.
  intros H. destruct (mem v l) eqn:E; [|reflexivity].
  apply mem_In in E. contradiction.
Qed.

(** No stage name has a dash in it. *)
Lemma key_without_dash (k : string) :
  In k (keys reduction_stages) -> contains "-" k = false.
Proof.
  cbn. intros H.
  repeat (destruct H as [H | H]; [subst k; reflexivity |]).
  contradiction.
Qed.

Lemma contains_app_dash (s t : string) : contains "-" (s ++ "-" ++ t) = true.
Proof.
  induction s as [| c s IH]; cbn in *.
  - reflexivity.
  - rewrite IH. apply orb_true_r.
Qed.

Lemma contains_nonempty (c : ascii) (s : string) :
  contains c s = true -> String.eqb s "" = false.
Proof. destruct s; cbn; [discriminate | reflexivity]. Qed.

(** A value with a dash is not one of the choices of [--stage]. *)
Lemma dash_refused (spec : string) :
  contains "-" spec = true -> select (Some spec) = Raise (SystemExit 2).
Proof.
  intros H. unfold select, stage_option, optional_choice.
  rewrite mem_not_In; [reflexivity |].
  intros Hin. apply key_without_dash in Hin. congruence.
Qed.

(** Past [argparse], the range branch of lines 129-132 raises: with two
    pieces at [ending_stage + 1], with more at the unpacking. *)
Lemma range_branch_raises (stage : string) :
  contains "-" stage = true ->
  stages_to_do stage = Raise TypeError \/ stages_to_do stage = Raise ValueError.
Proof.
  intros H. unfold stages_to_do.
  rewrite (contains_nonempty _ _ H), H. cbn [negb].
  destruct (split "-" stage) as [| p1 [| p2 [| p3 l]]]; cbn; auto.
Qed.

Lemma unknown_stage_refused (spec : string) :
  names_unknown_stage spec -> select (Some spec) = Raise (SystemExit 2).
Proof.
  intros [[_ Hnot] | [s [e [-> _]]]].
  - unfold select, stage_option, optional_choice.
    now rewrite mem_not_In.
  - apply dash_refused, contains_app_dash.
Qed.

(** The stages a selection returns are pairwise different. *)
Lemma select_NoDup (given : option string) (l : list string) :
  select given = Ok l -> NoDup l.
Proof.
  destruct given as [v |]; unfold select, stage_option, optional_choice.
  - destruct (mem v (keys reduction_stages)) eqn:E; [| discriminate].
    apply mem_In in E. cbn [bind]. unfold stages_to_do.
    rewrite (key_without_dash _ E).
    destruct (negb (v =? "")); intros [= <-].
    + repeat constructor. intros [].
    + cbn. repeat constructor; cbn; intuition discriminate.
  - cbn. intros [= <-]. repeat constructor; cbn; intuition discriminate.
Qed.

(** C1.  A range "start-end" does not come back as the stages from start
    through end: the value is not one of the choices of [--stage], so
    [argparse] ends the run with exit status 2 ("make_bias-trim" does not
    yield make_bias, subtract_bias, trim), and lines 129-132 themselves raise
    on every value with a dash, [TypeError] at [ending_stage + 1] when there
    are two pieces. *)
Theorem range_selection_raises :
  select (Some "make_bias-trim") = Raise (SystemExit 2) /\
  select (Some "make_bias-trim") <> Ok ["make_bias"; "subtract_bias"; "trim"] /\
  stages_to_do "make_bias-trim" = Raise TypeError /\
  forall starting_stage ending_stage : string,
    select (Some (starting_stage ++ "-" ++ ending_stage)) = Raise (SystemExit 2) /\
    (stages_to_do (starting_stage ++ "-" ++ ending_stage) = Raise TypeError \/
     stages_to_do (starting_stage ++ "-" ++ ending_stage) = Raise ValueError).
Proof.
  split; [reflexivity |]. split; [discriminate |]. split; [reflexivity |].
  intros s e. split.
  - apply dash_refused, contains_app_dash.
  - apply range_branch_raises, contains_app_dash.
Qed.

(** C5.  Without a stage value the selection is the ten stages in registry
    order, and a value that is a registered stage selects that stage alone. *)
Theorem select_all_or_single (stage : string) :
  In stage (keys reduction_stages) ->
  select None =
    Ok ["ingest"; "make_bias"; "subtract_bias"; "trim"; "make_dark";
        "subtract_dark"; "make_flat"; "divide_flat"; "solve_wcs";
        "make_catalog"] /\
  stages_to_do "" = select None /\
  select (Some stage) = Ok [stage].
Proof.
  intros H. split; [reflexivity |]. split; [reflexivity |].
  unfold select, stage_option, optional_choice.
  rewrite (proj2 (mem_In _ _) H). cbn [bind]. unfold stages_to_do.
  rewrite (key_without_dash _ H).
  destruct stage; [| reflexivity].
  cbn in H. intuition discriminate.
Qed.

Lemma select_all_or_single_witness :
  In "subtract_bias" (keys reduction_stages) /\
  select (Some "subtract_bias") = Ok ["subtract_bias"].
Proof.
  split.
  - cbn. tauto.
  - apply (select_all_or_single "subtract_bias"). cbn. tauto.
Defined.

(** C6, as the code has it.  A stage value that names an unknown stage, alone
    or as the start or end of a range, is refused by [argparse]: the run ends
    with exit status 2. *)
Theorem unknown_stage_exits (spec : string) :
  names_unknown_stage spec ->
  select (Some spec) = Raise (SystemExit 2).
Proof. apply unknown_stage_refused. Qed.

Lemma unknown_stage_exits_witness :
  names_unknown_stage "unknown_stage" /\
  select (Some "unknown_stage") = Raise (SystemExit 2).
Proof.
  assert (H : names_unknown_stage "unknown_stage").
  { left. split; [reflexivity |]. cbn. intuition discriminate. }
  split; [exact H | exact (unknown_stage_exits "unknown_stage" H)].
Defined.

(** C6 as stated fails: "trim-make_bias", whose start comes after its end,
    ends exactly as "unknown_stage" does, so no two different exceptions tell
    an inverted range from an unknown stage. *)
Lemma inverted_range_not_told_apart :
  select (Some "trim-make_bias") = Raise (SystemExit 2) /\
  select (Some "unknown_stage") = Raise (SystemExit 2) /\
  before "make_bias" "trim" (keys reduction_stages) /\
  ~ exists UnknownStageError InvalidRangeError,
      selection_errors UnknownStageError InvalidRangeError.
Proof.
  split; [reflexivity |]. split; [reflexivity |]. split.
  - exists 1, 3. repeat split. lia.
  - intros [u [r [Hne [Hu Hr]]]].
    assert (H1 : select (Some "unknown_stage") = Raise u).
    { apply Hu. left. split; [reflexivity |]. cbn. intuition discriminate. }
    assert (H2 : select (Some "trim-make_bias") = Raise r).
    { apply (Hr "trim" "make_bias"). exists 1, 3. repeat split. lia. }
    cbv in H1, H2. congruence.
Qed.

(** ** The queries: properties *)

Lemma ccdsum_cons (c : ascii) (s : string) :
  ccdsum (String c s) =
  String (if Ascii.eqb c "x" then " "%char else c) (ccdsum s).
Proof.
  unfold ccdsum, replace. cbn [replace_from String.prefix String.length Nat.sub].
  destruct (ascii_dec "x" c) as [<- | Hne].
  - now destruct s.
  - destruct (Ascii.eqb_spec c "x"); [congruence | reflexivity].
Qed.

Lemma ccdsum_idempotent (s : string) : ccdsum (ccdsum s) = ccdsum s.
Proof.
  induction s as [| c s IH]; [reflexivity |].
  rewrite !ccdsum_cons, IH.
  destruct (Ascii.eqb_spec c "x") as [-> | Hne]; [reflexivity |].
  destruct (Ascii.eqb_spec c "x"); [contradiction | reflexivity].
Qed.

(** C8.  Line 163 takes "1x1" to "1 1" and "2x2" to "2 2", two different
    values from which the compact ones are got back, and applying it again
    changes nothing, on these and on every string. *)
Theorem binning_normalization :
  map ccdsum ["1x1"; "2x2"] = ["1 1"; "2 2"] /\
  NoDup ["1 1"; "2 2"] /\
  map (replace " " "x") ["1 1"; "2 2"] = ["1x1"; "2x2"] /\
  map ccdsum ["1 1"; "2 2"] = ["1 1"; "2 2"] /\
  forall s : string, ccdsum (ccdsum s) = ccdsum s.
Proof.
  split; [reflexivity |]. split.
  - repeat constructor; cbn; intuition discriminate.
  - split; [reflexivity |]. split; [reflexivity | apply ccdsum_idempotent].
Qed.

Lemma and_if_set_unset {R} (q : sql.expression R) (column : R -> string) :
  and_if_set q column "" = q.
Proof. reflexivity. Qed.

(** C9.  With no criterion set both queries are [true()]: every telescope
    and every image satisfies them, and the telescope query returns the whole
    telescope table. *)
Theorem no_criteria_match_all (a : args.t) :
  no_criteria a ->
  telescope_query a = sql.true_ /\
  image_query a = sql.true_ /\
  (forall t, sql.holds (telescope_query a) t = true) /\
  (forall i, sql.holds (image_query a) i = true) /\
  (forall table, sql.all (telescope_query a) table = table) /\
  (forall (Epoch Outside : Type) (w : World Outside),
     res (@telescope_list Epoch Outside (telescope_query a) w) = Ok (telescopes w)).
Proof.
  intros (Hs & Hi & Ht & Hc & Hf & Hb & _).
  assert (HT : telescope_query a = sql.true_).
  { unfold telescope_query. now rewrite Hs, Hi, Ht, Hc. }
  assert (HI : image_query a = sql.true_).
  { unfold image_query. now rewrite Hf, Hb. }
  assert (Hall : forall table : list dbs.Telescope.t,
             sql.all sql.true_ table = table).
  { intros table. unfold sql.all. cbn.
    induction table as [| t table IH]; cbn; [reflexivity | now rewrite IH]. }
  rewrite HT, HI. repeat split; try apply Hall.
  intros Epoch Outside w. unfold telescope_list. cbn [res]. now rewrite Hall.
Qed.

(** C10.  The telescope query is built from the site, instrument, telescope
    and camera type alone: arguments that agree on the four give the same
    query, and the same telescopes from any table. *)
Theorem telescope_query_depends_on_four (a b : args.t) :
  same_telescope_criteria a b ->
  telescope_query a = telescope_query b /\
  (forall table,
     sql.all (telescope_query a) table = sql.all (telescope_query b) table) /\
  (forall (Epoch Outside : Type) (w : World Outside),
     @telescope_list Epoch Outside (telescope_query a) w =
     telescope_list (telescope_query b) w).
Proof.
  intros (Hs & Hi & Ht & Hc).
  assert (H : telescope_query a = telescope_query b).
  { unfold telescope_query. now rewrite Hs, Hi, Ht, Hc. }
  split; [exact H |]. split; intros; now rewrite H.
Qed.

(** C3.  The image type never reaches the image query: whatever it is set
    to, the query is the one built without it.  With only the image type set,
    to BIAS, the query is [true()], has no constraint, and a DARK image
    satisfies it.  The other two criteria are ANDed in when set. *)
Theorem image_type_not_in_query :
  (forall (t : string) (a : args.t),
     image_query (with_image_type t a) = image_query a) /\
  (let a := {| args.epoch := "20151001"; args.telescope := "";
               args.instrument := ""; args.site := ""; args.camera_type := "";
               args.stage := ""; args.raw_path := "/archive/engineering";
               args.processed_path := "/nethome/supernova/pylcogt";
               args.filter := ""; args.binning := ""; args.image_type := "BIAS";
               args.log_level := "info"; args.ncpus := 1 |} in
   image_query a = sql.true_ /\
   sql.constraints (image_query a) = [] /\
   sql.holds (image_query a)
     {| dbs.Image.filter_name := "rp"; dbs.Image.ccdsum := "2 2";
        dbs.Image.image_type := "DARK" |} = true) /\
  (let a := {| args.epoch := "20151001"; args.telescope := "";
               args.instrument := ""; args.site := ""; args.camera_type := "";
               args.stage := ""; args.raw_path := "/archive/engineering";
               args.processed_path := "/nethome/supernova/pylcogt";
               args.filter := "rp"; args.binning := "2x2";
               args.image_type := "BIAS";
               args.log_level := "info"; args.ncpus := 1 |} in
   sql.constraints (image_query a) =
     [(dbs.Image.filter_name, "rp"); (dbs.Image.ccdsum, "2 2")]).
Proof.
  split; [| split].
  - intros t a. reflexivity.
  - cbn. repeat split.
  - reflexivity.
Qed.

(** What an image has to be for the image query to hold: the filter and the
    normalized binning, each when set. *)
Lemma image_query_holds (a : args.t) (i : dbs.Image.t) :
  sql.holds (image_query a) i =
  (if nonempty (args.filter a)
   then String.eqb (dbs.Image.filter_name i) (args.filter a) else true) &&
  (if nonempty (args.binning a)
   then String.eqb (dbs.Image.ccdsum i) (ccdsum (args.binning a)) else true).
Proof.
  unfold image_query, and_if_set.
  destruct (nonempty (args.filter a)), (nonempty (args.binning a)); cbn;
    rewrite ?andb_true_r; reflexivity.
Qed.

(** ** Further properties of stage selection and of the queries *)

Lemma bind_ok_inv {A B} (r : result A) (k : A -> result B) (b : B) :
  Py.bind r k = Ok b -> exists x, r = Ok x /\ k x = Ok b.
Proof. destruct r as [x | e]; cbn; [eauto | discriminate]. Qed.

Lemma contains_occurrences (c : ascii) (s : string) :
  contains c s = negb (Nat.eqb (occurrences c s) 0).
Proof.
  induction s as [| d s IH]; cbn; [reflexivity |].
  rewrite IH, (Ascii.eqb_sym c d).
  destruct (Ascii.eqb d c); reflexivity.
Qed.

Lemma split_length (c : ascii) (s : string) :
  List.length (split c s) = S (occurrences c s).
Proof.
  induction s as [| d s IH]; cbn; [reflexivity |].
  destruct (Ascii.eqb d c); cbn; [now rewrite IH |].
  destruct (split c s); cbn in *; [discriminate | exact IH].
Qed.

(** X1.  Lines 127-136 by the number of dashes in [args.stage]: the empty
    value gives every stage; a value without a dash comes back alone and
    unchecked; one dash raises [TypeError]; more raise [ValueError]. *)
Theorem stages_to_do_by_dashes (stage : string) :
  stages_to_do stage =
  if String.eqb stage "" then Ok (keys reduction_stages)
  else match occurrences "-" stage with
       | 0 => Ok [stage]
       | 1 => Raise TypeError
       | _ => Raise ValueError
       end.
Proof.
  unfold stages_to_do. rewrite contains_occurrences.
  destruct (String.eqb stage ""); cbn [negb]; [reflexivity |].
  pose proof (split_length "-" stage) as Hlen.
  destruct (occurrences "-" stage) as [| [| n]]; cbn [Nat.eqb negb].
  - reflexivity.
  - destruct (split "-" stage) as [| p1 [| p2 [| p3 l]]]; cbn in Hlen;
      try discriminate. reflexivity.
  - destruct (split "-" stage) as [| p1 [| p2 [| p3 l]]]; cbn in Hlen;
      try discriminate; reflexivity.
Qed.

Lemma optional_choice_ok (default : string) (choices : list string)
    (given : option string) (v : string) :
  optional_choice default choices given = Ok v ->
  (given = None /\ v = default) \/ (given = Some v /\ In v choices).
Proof.
  destruct given as [x |]; cbn.
  - destruct (mem x choices) eqn:E; [| discriminate].
    intros [= <-]. right. split; [reflexivity | now apply mem_In].
  - intros [= <-]. now left.
Qed.

Lemma optional_choice_raises (default : string) (choices : list string)
    (given : option string) (e : exn) :
  optional_choice default choices given = Raise e -> e = SystemExit 2.
Proof.
  destruct given as [x |]; cbn; [| discriminate].
  destruct (mem x choices); [discriminate | now intros [= <-]].
Qed.

(** What each field of the parsed arguments comes from. *)
Lemma parse_args_inv (S I T C : list string) (cmd_args : argv.t) (a : args.t) :
  parse_args S I T C cmd_args = Ok a ->
  required (argv.epoch cmd_args) = Ok (args.epoch a) /\
  optional_choice "" T (argv.telescope cmd_args) = Ok (args.telescope a) /\
  optional_choice "" I (argv.instrument cmd_args) = Ok (args.instrument a) /\
  optional_choice "" S (argv.site cmd_args) = Ok (args.site a) /\
  optional_choice "" C (argv.camera_type cmd_args) = Ok (args.camera_type a) /\
  stage_option (argv.stage cmd_args) = Ok (args.stage a) /\
  optional "/archive/engineering" (argv.raw_path cmd_args) = Ok (args.raw_path a) /\
  optional "/nethome/supernova/pylcogt" (argv.processed_path cmd_args) =
    Ok (args.processed_path a) /\
  optional_choice ""
    ["sloan"; "landolt"; "apass"; "up"; "gp"; "rp"; "ip"; "zs";
     "U"; "B"; "V"; "R"; "I"] (argv.filter cmd_args) = Ok (args.filter a) /\
  optional_choice "" ["1x1"; "2x2"] (argv.binning cmd_args) = Ok (args.binning a) /\
  optional_choice "" ["BIAS"; "DARK"; "SKYFLAT"; "EXPOSE"]
    (argv.image_type cmd_args) = Ok (args.image_type a) /\
  optional_choice "info"
    ["debug"; "info"; "warning"; "critical"; "fatal"; "error"]
    (argv.log_level cmd_args) = Ok (args.log_level a) /\
  optional_int 1 (argv.ncpus cmd_args) = Ok (args.ncpus a).
Proof.
  unfold parse_args. intros H.
  repeat (apply bind_ok_inv in H; destruct H as [? [? H]]).
  injection H as <-. cbn. repeat split; assumption.
Qed.

Lemma required_raises (given : option string) (e : exn) :
  required given = Raise e -> e = SystemExit 2.
Proof. destruct given; cbn; [discriminate | now intros [= <-]]. Qed.

Lemma optional_never_raises (default : string) (given : option string) (e : exn) :
  optional default given <> Raise e.
Proof. destruct given; discriminate. Qed.

Lemma optional_int_raises (default : Z) (given : option string) (e : exn) :
  optional_int default given = Raise e -> e = SystemExit 2.
Proof.
  destruct given as [v |]; cbn; [| discriminate].
  destruct (int v); [discriminate | now intros [= <-]].
Qed.

(** Every refusal of a command line is exit status 2. *)
Lemma parse_args_raises (S I T C : list string) (cmd_args : argv.t) (e : exn) :
  parse_args S I T C cmd_args = Raise e -> e = SystemExit 2.
Proof.
  unfold parse_args, stage_option.
  repeat match goal with
  | |- Py.bind ?r _ = Raise _ -> _ =>
      let E := fresh "E" in
      destruct r eqn:E; cbn [Py.bind];
      [| intros [= <-];
         first [ eapply optional_choice_raises; eassumption
               | eapply required_raises; eassumption
               | eapply optional_int_raises; eassumption
               | exfalso; eapply optional_never_raises; eassumption ] ]
  end.
  discriminate.
Qed.

Lemma distinct_spec {R} (column : R -> string) (table : list R) (v : string) :
  In v (sql.distinct column table) <-> in_column column table v.
Proof.
  unfold sql.distinct, in_column. rewrite nodup_In, in_map_iff.
  split; intros [row [H1 H2]]; exists row; auto.
Qed.

Lemma getitem_keys {V} (d : list (string * V)) (k : string) :
  (In k (keys d) -> exists v, getitem d k = Ok v) /\
  (~ In k (keys d) -> getitem d k = Raise (KeyError k)).
Proof.
  induction d as [| [k' v] d [IH1 IH2]]; cbn.
  - split; [contradiction | reflexivity].
  - destruct (String.eqb_spec k k') as [-> | Hne]; split; intros H.
    + eauto.
    + exfalso. apply H. now left.
    + destruct H as [H | H]; [congruence | auto].
    + apply IH2. intros Hin. apply H. now right.
Qed.

Lemma stages_to_do_registered (stage : string) :
  In stage (keys reduction_stages) -> stages_to_do stage = Ok [stage].
Proof.
  intros H. unfold stages_to_do. rewrite (key_without_dash _ H).
  destruct stage; [| reflexivity].
  cbn in H. intuition discriminate.
Qed.

(** X2.  A command line [main] accepts names only what the store has: each
    of [--site], [--instrument], [--telescope] and [--camera-type] was either
    left out, and is the empty string, or was given a value that some row of
    the telescope table has in that column. *)
Theorem accepted_criteria_in_store {Outside} (w : World Outside)
    (cmd_args : argv.t) (a : args.t) :
  parse_in w cmd_args = Ok a ->
  absent_or_in_column dbs.Telescope.site (telescopes w)
    (argv.site cmd_args) (args.site a) /\
  absent_or_in_column dbs.Telescope.instrument (telescopes w)
    (argv.instrument cmd_args) (args.instrument a) /\
  absent_or_in_column dbs.Telescope.telescope_id (telescopes w)
    (argv.telescope cmd_args) (args.telescope a) /\
  absent_or_in_column dbs.Telescope.camera_type (telescopes w)
    (argv.camera_type cmd_args) (args.camera_type a).
Proof.
  intros H. apply parse_args_inv in H.
  destruct H as (_ & Ht & Hi & Hs & Hc & _).
  apply optional_choice_ok in Ht, Hi, Hs, Hc.
  unfold absent_or_in_column.
  repeat split;
    match goal with
    | Hx : (?g = None /\ _) \/ _ |- (?g = None /\ _) \/ _ =>
        destruct Hx as [Hx | [Hx1 Hx2]];
        [left; exact Hx | right; split; [exact Hx1 | now apply distinct_spec]]
    end.
Qed.

(** X3.  On a command line [main] accepts, the stage value is empty or one
    registered stage, so lines 127-136 do not raise: the stages to do are all
    ten or that one, they are pairwise different, and the lookup of line 171
    finds a class for each. *)
Theorem accepted_stage_is_dispatchable (S I T C : list string)
    (cmd_args : argv.t) (a : args.t) :
  parse_args S I T C cmd_args = Ok a ->
  exists stages,
    stages_to_do (args.stage a) = Ok stages /\
    (stages = keys reduction_stages \/ stages = [args.stage a]) /\
    NoDup stages /\
    forall stage, In stage stages ->
      exists cls, getitem reduction_stages stage = Ok cls.
Proof.
  intros H. apply parse_args_inv in H.
  destruct H as (_ & _ & _ & _ & _ & Hstage & _).
  apply optional_choice_ok in Hstage.
  assert (Hkeys : NoDup (keys reduction_stages))
    by (cbn; repeat constructor; cbn; intuition discriminate).
  destruct Hstage as [[_ ->] | [_ Hin]].
  - exists (keys reduction_stages). repeat split; auto.
    intros stage Hs. now apply getitem_keys.
  - exists [args.stage a]. rewrite (stages_to_do_registered _ Hin).
    repeat split; auto.
    + repeat constructor. intros [].
    + intros stage [<- | []]. now apply getitem_keys.
Qed.

(** X4.  On an accepted command line the binning is empty, "1x1" or "2x2".
    When it is empty the image query is the one built from the filter alone;
    otherwise the image query is that one ANDed with the equality of [ccdsum]
    with "1 1", respectively "2 2", and every image that satisfies it has
    that [ccdsum]. *)
Theorem accepted_binning (S I T C : list string)
    (cmd_args : argv.t) (a : args.t) :
  parse_args S I T C cmd_args = Ok a ->
  (args.binning a = "" /\
   image_query a = and_if_set sql.true_ dbs.Image.filter_name (args.filter a)) \/
  (args.binning a = "1x1" /\
   image_query a =
     sql.and_ (and_if_set sql.true_ dbs.Image.filter_name (args.filter a))
              (sql.eq dbs.Image.ccdsum "1 1") /\
   forall i, sql.holds (image_query a) i = true -> dbs.Image.ccdsum i = "1 1") \/
  (args.binning a = "2x2" /\
   image_query a =
     sql.and_ (and_if_set sql.true_ dbs.Image.filter_name (args.filter a))
              (sql.eq dbs.Image.ccdsum "2 2") /\
   forall i, sql.holds (image_query a) i = true -> dbs.Image.ccdsum i = "2 2").
Proof.
  intros H. apply parse_args_inv in H.
  destruct H as (_ & _ & _ & _ & _ & _ & _ & _ & _ & Hb & _).
  apply optional_choice_ok in Hb.
  assert (Hset : forall v n,
            args.binning a = v -> nonempty v = true -> ccdsum v = n ->
            image_query a =
              sql.and_ (and_if_set sql.true_ dbs.Image.filter_name (args.filter a))
                       (sql.eq dbs.Image.ccdsum n) /\
            forall i, sql.holds (image_query a) i = true ->
                      dbs.Image.ccdsum i = n).
  { intros v n Hv Hne Hn.
    assert (Hq : image_query a =
                 sql.and_ (and_if_set sql.true_ dbs.Image.filter_name
                             (args.filter a))
                          (sql.eq dbs.Image.ccdsum n)).
    { unfold image_query. now rewrite Hv, Hne, Hn. }
    split; [exact Hq |].
    intros i Hi. rewrite Hq in Hi. cbn [sql.holds] in Hi.
    apply andb_true_iff in Hi. now apply String.eqb_eq. }
  destruct Hb as [[_ Hb] | [_ [Hb | [Hb | []]]]].
  - left. split; [exact Hb |]. unfold image_query. now rewrite Hb.
  - right. left. split; [now symmetry |].
    apply (Hset "1x1"); [now symmetry | reflexivity | reflexivity].
  - right. right. split; [now symmetry |].
    apply (Hset "2x2"); [now symmetry | reflexivity | reflexivity].
Qed.

Lemma and_if_set_holds {R} (q : sql.expression R) (column : R -> string)
    (v : string) (row : R) :
  sql.holds (and_if_set q column v) row = true <->
  sql.holds q row = true /\ (v = "" \/ column row = v).
Proof.
  unfold and_if_set, nonempty.
  destruct (String.eqb_spec v "") as [-> | Hne]; cbn.
  - intuition.
  - rewrite andb_true_iff, String.eqb_eq. intuition.
Qed.

Lemma telescope_query_holds (a : args.t) (t : dbs.Telescope.t) :
  sql.holds (telescope_query a) t = true <-> matches_telescope a t.
Proof.
  unfold telescope_query, matches_telescope.
  rewrite !and_if_set_holds. cbn. intuition.
Qed.

(** X5.  The telescopes of a run are the rows of the telescope table that
    agree with every telescope criterion that is set, in the order of the
    table: nothing else comes back and no such row is left out. *)
Theorem telescope_list_is_the_matching_rows (a : args.t)
    (table : list dbs.Telescope.t) :
  (forall t, In t (sql.all (telescope_query a) table) <->
             In t table /\ matches_telescope a t) /\
  (forall table', sql.all (telescope_query a) (table ++ table')%list =
                  (sql.all (telescope_query a) table ++
                   sql.all (telescope_query a) table')%list) /\
  List.length (sql.all (telescope_query a) table) <= List.length table.
Proof.
  split; [| split].
  - intros t. unfold sql.all. rewrite filter_In, telescope_query_holds.
    reflexivity.
  - intros table'. apply filter_app.
  - apply filter_length_le.
Qed.

(** X6.  An image satisfies the image query exactly when it has the filter,
    if one is set, and the normalized binning, if one is set; its image type
    plays no part. *)
Theorem image_query_is_filter_and_binning (a : args.t) (i : dbs.Image.t) :
  (sql.holds (image_query a) i = true <-> matches_image a i) /\
  (forall image_type,
     sql.holds (image_query a)
       {| dbs.Image.filter_name := dbs.Image.filter_name i;
          dbs.Image.ccdsum := dbs.Image.ccdsum i;
          dbs.Image.image_type := image_type |} =
     sql.holds (image_query a) i).
Proof.
  assert (H : forall j, sql.holds (image_query a) j = true <-> matches_image a j).
  { intros j. unfold matches_image. rewrite image_query_holds, andb_true_iff.
    unfold nonempty.
    destruct (String.eqb_spec (args.filter a) "") as [-> | Hf];
      destruct (String.eqb_spec (args.binning a) "") as [-> | Hb];
      cbn [negb]; rewrite ?String.eqb_eq; intuition. }
  split; [apply H |].
  intros image_type. now rewrite !image_query_holds.
Qed.

(** X7.  Line 163 keeps the length of the binning, leaves no "x" in it, and
    changes nothing exactly when there was no "x". *)
Theorem ccdsum_shape (binning : string) :
  String.length (ccdsum binning) = String.length binning /\
  contains "x" (ccdsum binning) = false /\
  (ccdsum binning = binning <-> contains "x" binning = false).
Proof.
  induction binning as [| c s (IHlen & IHx & IHid)]; [repeat split |].
  rewrite ccdsum_cons.
  destruct (Ascii.eqb_spec c "x") as [-> | Hne]; cbn [String.length contains].
  - change (Ascii.eqb "x" " ") with false.
    change (Ascii.eqb "x" "x") with true.
    cbn [orb]. rewrite IHlen, IHx. repeat split; discriminate.
  - destruct (Ascii.eqb_spec "x" c) as [<- | _]; [contradiction |].
    cbn [orb]. rewrite IHlen, IHx. repeat split.
    + intros [= H]. now apply IHid.
    + intros H. f_equal. now apply IHid.
Qed.

(** ** Runs of the driver: properties *)

(** In a list without repetition cut at one element, what comes before the
    cut occurs once in the part before it, with or without that element, and
    what comes after it does not occur there. *)
Lemma count_before_cut (pre post l : list string) (stage s : string) :
  NoDup (pre ++ stage :: post)%list ->
  l = pre \/ l = (pre ++ [stage])%list ->
  (In s pre -> count_occ string_dec l s = 1) /\
  (In s post -> count_occ string_dec l s = 0).
Proof.
  intros Hnd Hl.
  assert (Hone : In s (pre ++ stage :: post)%list ->
                 count_occ string_dec pre s +
                 count_occ string_dec (stage :: post) s = 1).
  { intros Hin. rewrite <- count_occ_app.
    apply (proj1 (NoDup_count_occ' string_dec _) Hnd), Hin. }
  assert (Hl' : count_occ string_dec l s = count_occ string_dec pre s \/
                count_occ string_dec l s =
                count_occ string_dec pre s + count_occ string_dec [stage] s).
  { destruct Hl as [-> | ->]; [now left | right; apply count_occ_app]. }
  cbn [count_occ] in Hone, Hl'.
  split; intros Hin.
  - pose proof (proj1 (count_occ_In string_dec pre s) Hin) as Hpos.
    assert (Hin' : In s (pre ++ stage :: post)%list)
      by (apply in_or_app; now left).
    specialize (Hone Hin').
    destruct (string_dec stage s); lia.
  - pose proof (proj1 (count_occ_In string_dec post s) Hin) as Hpos.
    assert (Hin' : In s (pre ++ stage :: post)%list)
      by (apply in_or_app; right; now right).
    specialize (Hone Hin').
    destruct (string_dec stage s); lia.
Qed.



Section DriverProperties.

Variables Epoch Outside Processor : Type.
Variable parse_epoch_string : string -> result (list Epoch).
Variable construct :
  StageClass -> string -> string -> sql.expression dbs.Image.t ->
  World Outside -> result Processor * World Outside.
Variable run :
  Processor -> list Epoch -> list dbs.Telescope.t ->
  World Outside -> result unit * World Outside.

Local Abbreviation M := (M Epoch Outside).

Lemma bindM_assoc {A B C} (m : M A) (k : A -> M B) (h : B -> M C) w :
  bindM (bindM m k) h w = bindM m (fun x => bindM (k x) h) w.
Proof.
  unfold bindM. destruct (res (m w)) as [x | e]; cbn; [| reflexivity].
  destruct (res (k x (final (m w)))); cbn; [| reflexivity].
  now rewrite app_assoc.
Qed.

Lemma bindM_ext {A B} (m : M A) (k k' : A -> M B) w :
  (forall x w', k x w' = k' x w') -> bindM m k w = bindM m k' w.
Proof.
  intros H. unfold bindM. destruct (res (m w)); [| reflexivity].
  now rewrite H.
Qed.

Lemma bindM_ok {A B} (m : M A) (k : A -> M B) w x :
  res (m w) = Ok x ->
  bindM m k w =
  {| res := res (k x (final (m w)));
     events := events (m w) ++ events (k x (final (m w)));
     final := final (k x (final (m w))) |}.
Proof. intros H. unfold bindM. now rewrite H. Qed.

Lemma bindM_raise {A B} (m : M A) (k : A -> M B) w e :
  res (m w) = Raise e ->
  bindM m k w = {| res := Raise e; events := events (m w); final := final (m w) |}.
Proof. intros H. unfold bindM. now rewrite H. Qed.

Lemma bindM_emit {B} (e : Event Epoch) (k : unit -> M B) w :
  bindM (emit e) k w = after [e] (k tt w).
Proof. reflexivity. Qed.

Lemma bindM_lift_ok {A B} (r : result A) (k : A -> M B) w x :
  r = Ok x -> bindM (lift r) k w = k x w.
Proof. intros ->. unfold bindM, lift. cbn. now destruct (k x w). Qed.

Lemma bindM_call_ok {A B} (ev : Event Epoch)
    (f : World Outside -> result A * World Outside) (k : A -> M B) w x :
  fst (f w) = Ok x -> bindM (call ev f) k w = after [ev] (k x (snd (f w))).
Proof. intros H. unfold bindM, call. cbn. now rewrite H. Qed.

Lemma bindM_call_raise {A B} (ev : Event Epoch)
    (f : World Outside -> result A * World Outside) (k : A -> M B) w e :
  fst (f w) = Raise e ->
  bindM (call ev f) k w = {| res := Raise e; events := [ev]; final := snd (f w) |}.
Proof. intros H. unfold bindM, call. cbn. now rewrite H. Qed.

Lemma bindM_telescope_list {B} q (k : list dbs.Telescope.t -> M B) w :
  bindM (telescope_list q) k w =
  after [query_telescopes q] (k (sql.all q (telescopes w)) w).
Proof. reflexivity. Qed.

Lemma get_telescope_info_run (w : World Outside) :
  get_telescope_info Epoch Outside w =
  {| res := Ok (sql.distinct dbs.Telescope.site (telescopes w),
                sql.distinct dbs.Telescope.instrument (telescopes w),
                sql.distinct dbs.Telescope.telescope_id (telescopes w),
                sql.distinct dbs.Telescope.camera_type (telescopes w));
     events := discovery;
     final := w |}.
Proof. reflexivity. Qed.

Section Loop.

Variable a : args.t.
Variable q : sql.expression dbs.Image.t.
Variable epoch_list : list Epoch.
Variable tels : list dbs.Telescope.t.

Local Abbreviation loop := (dispatch construct run a q epoch_list tels).
Local Abbreviation steps := (steps a q epoch_list tels).

(** The loop over a list in two parts is the loop over the first and then,
    when that does not raise, the loop over the second. *)
Lemma dispatch_app (pre post : list string) w :
  loop (pre ++ post)%list w = bindM (loop pre) (fun _ => loop post) w.
Proof.
  revert w. induction pre as [| stage pre IH]; intros w.
  - cbn. unfold bindM, ret. cbn. now destruct (loop post w).
  - cbn [app dispatch].
    rewrite bindM_assoc. apply bindM_ext. intros cls w1.
    rewrite bindM_assoc. apply bindM_ext. intros p w2.
    rewrite bindM_assoc. apply bindM_ext. intros _ w3.
    rewrite bindM_assoc. apply bindM_ext. intros _ w4.
    apply IH.
Qed.

(** One turn of the loop either goes through its three events, or raises
    at the lookup, in the constructor or in [run]. *)
Lemma dispatch_one (stage : string) w :
  (res (loop [stage] w) = Ok tt /\ events (loop [stage] w) = steps stage) \/
  (exists e, res (loop [stage] w) = Raise e /\
     (events (loop [stage] w) = [] \/
      events (loop [stage] w) =
        [stage_init stage (args.raw_path a) (args.processed_path a) q] \/
      events (loop [stage] w) =
        [stage_init stage (args.raw_path a) (args.processed_path a) q;
         stage_run stage epoch_list tels])).
Proof.
  cbn [dispatch]. unfold bindM, lift, call, emit, ret. cbn [res events final].
  destruct (getitem reduction_stages stage) as [cls | e]; cbn [res events final].
  2: { right. exists e. auto. }
  destruct (construct cls (args.raw_path a) (args.processed_path a) q w)
    as [[p | e] w1]; cbn [res events final fst snd app].
  2: { right. exists e. auto. }
  destruct (run p epoch_list tels w1) as [[[] | e] w2];
    cbn [res events final fst snd app].
  - left. auto.
  - right. exists e. auto.
Qed.

Lemma dispatch_ok_events (stages : list string) w :
  res (loop stages w) = Ok tt ->
  events (loop stages w) = flat_map steps stages.
Proof.
  revert w. induction stages as [| stage rest IH]; intros w H.
  - reflexivity.
  - change (stage :: rest) with ([stage] ++ rest)%list in H |- *.
    rewrite dispatch_app in H |- *.
    destruct (dispatch_one stage w) as [[Hok Hev] | [e [He _]]].
    + rewrite (bindM_ok _ _ _ _ Hok) in H |- *.
      cbn [res events final] in H |- *.
      rewrite Hev. cbn [flat_map app]. f_equal. apply (IH _ H).
    + rewrite (bindM_raise _ _ _ _ He) in H. discriminate.
Qed.

Lemma collect_app {A B} (f : A -> option B) (l l' : list A) :
  collect f (l ++ l')%list = (collect f l ++ collect f l')%list.
Proof.
  induction l as [| x l IH]; cbn; [reflexivity |].
  destruct (f x); cbn; now rewrite IH.
Qed.

Lemma constructed_steps (stages : list string) :
  collect constructed (flat_map steps stages) = stages.
Proof. induction stages as [| s l IH]; cbn; [reflexivity | now rewrite IH]. Qed.

Lemma invoked_steps (stages : list string) :
  collect invoked (flat_map steps stages) = stages.
Proof. induction stages as [| s l IH]; cbn; [reflexivity | now rewrite IH]. Qed.

Lemma dispatch_turn (stage : string) (rest : list string)
    (cls : StageClass) (p : Processor) (w w1 w2 : World Outside) :
  getitem reduction_stages stage = Ok cls ->
  construct cls (args.raw_path a) (args.processed_path a) q w = (Ok p, w1) ->
  run p epoch_list tels w1 = (Ok tt, w2) ->
  loop (stage :: rest) w = after (steps stage) (loop rest w2).
Proof.
  intros Hcls Hnew Hrun. cbn [dispatch].
  rewrite (bindM_lift_ok _ _ _ _ Hcls).
  rewrite (bindM_call_ok _ _ _ _ p) by (now rewrite Hnew).
  rewrite Hnew. cbn [snd].
  rewrite (bindM_call_ok _ _ _ _ tt) by (now rewrite Hrun).
  rewrite Hrun. cbn [snd]. rewrite bindM_emit.
  unfold after. cbn [res events final app]. reflexivity.
Qed.

Lemma dispatch_raise (stage : string) (rest : list string)
    (w w' : World Outside) (e : exn) (tail : list (Event Epoch)) :
  stage_raises construct run a q epoch_list tels stage w e tail w' ->
  loop (stage :: rest) w = {| res := Raise e; events := tail; final := w' |}.
Proof.
  intros H. cbn [dispatch].
  destruct H as [e Hcls | cls e w1 Hcls Hnew | cls p w1 e w2 Hcls Hnew Hrun].
  - rewrite (bindM_raise _ _ _ e) by exact Hcls. reflexivity.
  - rewrite (bindM_lift_ok _ _ _ _ Hcls).
    rewrite (bindM_call_raise _ _ _ _ e) by (now rewrite Hnew).
    now rewrite Hnew.
  - rewrite (bindM_lift_ok _ _ _ _ Hcls).
    rewrite (bindM_call_ok _ _ _ _ p) by (now rewrite Hnew).
    rewrite Hnew. cbn [snd].
    rewrite (bindM_call_raise _ _ _ _ e) by (now rewrite Hrun).
    rewrite Hrun. reflexivity.
Qed.

Lemma dispatch_all_return (stages : list string) (w w' : World Outside) :
  all_return construct run a q epoch_list tels stages w w' ->
  loop stages w =
  {| res := Ok tt; events := flat_map steps stages; final := w' |}.
Proof.
  induction 1 as [w | stage rest cls p w w1 w2 w3 Hcls Hnew Hrun _ IH].
  - reflexivity.
  - rewrite (dispatch_turn _ _ _ _ _ _ _ Hcls Hnew Hrun), IH. reflexivity.
Qed.

Lemma dispatch_until_raise (pre post : list string) (stage : string)
    (w w1 w2 : World Outside) (e : exn) (tail : list (Event Epoch)) :
  all_return construct run a q epoch_list tels pre w w1 ->
  stage_raises construct run a q epoch_list tels stage w1 e tail w2 ->
  loop (pre ++ stage :: post)%list w =
  {| res := Raise e; events := (flat_map steps pre ++ tail)%list; final := w2 |}.
Proof.
  intros Hpre Hstage.
  induction Hpre as [w | s rest cls p w w1' w2' w3 Hcls Hnew Hrun _ IH].
  - now apply dispatch_raise.
  - cbn [app]. rewrite (dispatch_turn _ _ _ _ _ _ _ Hcls Hnew Hrun).
    rewrite (IH Hstage). reflexivity.
Qed.

(** Every run of the loop is one of the two: all the stages return, or the
    stages before some position return and the stage there raises. *)
Lemma dispatch_cases (stages : list string) (w : World Outside) :
  (exists w', all_return construct run a q epoch_list tels stages w w') \/
  (exists pre stage post w1 e tail w2,
     stages = (pre ++ stage :: post)%list /\
     all_return construct run a q epoch_list tels pre w w1 /\
     stage_raises construct run a q epoch_list tels stage w1 e tail w2).
Proof.
  revert w. induction stages as [| stage rest IH]; intros w.
  - left. exists w. constructor.
  - destruct (getitem reduction_stages stage) as [cls | e] eqn:Hcls.
    2: { right. exists [], stage, rest, w, e, [], w.
         repeat split; [constructor | now constructor]. }
    destruct (construct cls (args.raw_path a) (args.processed_path a) q w)
      as [[p | e] w1] eqn:Hnew.
    2: { right. exists [], stage, rest, w, e. do 2 eexists.
         repeat split; [constructor | eapply raises_in_constructor; eassumption]. }
    destruct (run p epoch_list tels w1) as [[[] | e] w2] eqn:Hrun.
    2: { right. exists [], stage, rest, w, e. do 2 eexists.
         repeat split; [constructor | eapply raises_in_run; eassumption]. }
    destruct (IH w2) as [[w' Hall] | (pre & s & post & w1' & e & tail & w2' & -> & Hpre & Hs)].
    + left. exists w'. econstructor; eassumption.
    + right. exists (stage :: pre), s, post, w1', e, tail, w2'.
      repeat split; [econstructor; eassumption | exact Hs].
Qed.

(** C7.  The loop of lines 170-173 takes the stages in the order of the
    list, each constructed, then run, and the next one only after that run
    has returned, each call in the world the call before it left.  When the
    stages before some position all return and the stage at that position
    raises, at its lookup, in its constructor or in its [run], the loop ends
    with that exception in the world the raising call left: the stages
    before have each been constructed once and run once, the raising one at
    most once, and the stages after it have been neither constructed nor
    run.  Every run of the loop is one of these two. *)
Theorem dispatch_in_order_until_raise :
  (forall stages w w',
     all_return construct run a q epoch_list tels stages w w' ->
     loop stages w =
     {| res := Ok tt; events := flat_map steps stages; final := w' |}) /\
  (forall pre stage post w w1 e tail w2,
     all_return construct run a q epoch_list tels pre w w1 ->
     stage_raises construct run a q epoch_list tels stage w1 e tail w2 ->
     loop (pre ++ stage :: post)%list w =
     {| res := Raise e;
        events := (flat_map steps pre ++ tail)%list;
        final := w2 |} /\
     (collect constructed (events (loop (pre ++ stage :: post)%list w)) = pre \/
      collect constructed (events (loop (pre ++ stage :: post)%list w)) =
        (pre ++ [stage])%list) /\
     (collect invoked (events (loop (pre ++ stage :: post)%list w)) = pre \/
      collect invoked (events (loop (pre ++ stage :: post)%list w)) =
        (pre ++ [stage])%list) /\
     (NoDup (pre ++ stage :: post)%list ->
      forall s,
        (In s pre ->
         count_occ string_dec
           (collect constructed (events (loop (pre ++ stage :: post)%list w))) s = 1 /\
         count_occ string_dec
           (collect invoked (events (loop (pre ++ stage :: post)%list w))) s = 1) /\
        (In s post ->
         count_occ string_dec
           (collect constructed (events (loop (pre ++ stage :: post)%list w))) s = 0 /\
         count_occ string_dec
           (collect invoked (events (loop (pre ++ stage :: post)%list w))) s = 0))) /\
  (forall stages w,
     (exists w', all_return construct run a q epoch_list tels stages w w') \/
     (exists pre stage post w1 e tail w2,
        stages = (pre ++ stage :: post)%list /\
        all_return construct run a q epoch_list tels pre w w1 /\
        stage_raises construct run a q epoch_list tels stage w1 e tail w2)).
Proof.
  split; [exact dispatch_all_return |]. split; [| exact dispatch_cases].
  intros pre stage post w w1 e tail w2 Hpre Hstage.
  rewrite (dispatch_until_raise pre post stage w w1 w2 e tail Hpre Hstage).
  cbn [res events final].
  rewrite !collect_app, constructed_steps, invoked_steps.
  assert (Hc : (pre ++ collect constructed tail)%list = pre \/
               (pre ++ collect constructed tail)%list = (pre ++ [stage])%list).
  { destruct Hstage; cbn; [left; apply app_nil_r | now right | now right]. }
  assert (Hi : (pre ++ collect invoked tail)%list = pre \/
               (pre ++ collect invoked tail)%list = (pre ++ [stage])%list).
  { destruct Hstage; cbn;
      [left; apply app_nil_r | left; apply app_nil_r | now right]. }
  split; [reflexivity |]. split; [exact Hc |]. split; [exact Hi |].
  intros Hnd s.
  pose proof (count_before_cut pre post _ stage s Hnd Hc) as [Hc1 Hc0].
  pose proof (count_before_cut pre post _ stage s Hnd Hi) as [Hi1 Hi0].
  split; intros Hin; split; auto.
Qed.

End Loop.

(** The loop reads the two paths of the parsed arguments and nothing else. *)
Lemma dispatch_ignores_ncpus n a q (epoch_list : list Epoch) tels stages :
  dispatch construct run (with_ncpus n a) q epoch_list tels stages =
  dispatch construct run a q epoch_list tels stages.
Proof.
  induction stages as [| stage rest IH]; cbn [dispatch]; [reflexivity |].
  now rewrite IH.
Qed.

(** C2.  The worker count does not reach the stages.  Neither the
    constructor call nor the [run] call has a place for it, and a run on
    arguments with any other [ncpus] makes the same calls with the same
    arguments, ends the same and leaves the same world. *)
Theorem ncpus_not_passed (n : Z) (a : args.t) (w : World Outside) :
  reduce parse_epoch_string construct run (with_ncpus n a) w =
  reduce parse_epoch_string construct run a w.
Proof.
  unfold reduce.
  change (args.log_level (with_ncpus n a)) with (args.log_level a).
  change (args.epoch (with_ncpus n a)) with (args.epoch a).
  change (args.stage (with_ncpus n a)) with (args.stage a).
  change (telescope_query (with_ncpus n a)) with (telescope_query a).
  change (image_query (with_ncpus n a)) with (image_query a).
  apply bindM_ext. intros _ w1.
  apply bindM_ext. intros epoch_list w2.
  apply bindM_ext. intros stages w3.
  apply bindM_ext. intros _ w4.
  apply bindM_ext. intros tels w5.
  now rewrite dispatch_ignores_ncpus.
Qed.

(** Once the epoch is parsed and the stages are selected, a run is the
    telescope query, the loop over the stages on what the query returned,
    and, when no stage raises, the end of logging. *)
Lemma reduce_runs_dispatch (a : args.t) (w : World Outside)
    (epoch_list : list Epoch) (stages : list string) :
  parse_epoch_string (args.epoch a) = Ok epoch_list ->
  stages_to_do (args.stage a) = Ok stages ->
  reduce parse_epoch_string construct run a w =
  let o := dispatch construct run a (image_query a) epoch_list
             (sql.all (telescope_query a) (telescopes w)) stages w in
  {| res := res o;
     events :=
       ([ logs_start_logging (args.log_level a);
          date_utils_parse_epoch_string (args.epoch a);
          dbs_get_session;
          query_telescopes (telescope_query a);
          session_close;
          logs_get_logger "Main";
          logger_info "Starting pylcogt:" ] ++
        events o ++
        match res o with
        | Ok _ => [logs_stop_logging]
        | Raise _ => []
        end)%list;
     final := final o |}.
Proof.
  intros Hepoch Hstages. unfold reduce.
  rewrite bindM_emit.
  rewrite (bindM_call_ok _ _ _ _ epoch_list) by exact Hepoch. cbn [snd].
  rewrite (bindM_lift_ok _ _ _ _ Hstages).
  rewrite bindM_emit, bindM_telescope_list, !bindM_emit.
  unfold after. cbn [res events final app].
  destruct (dispatch construct run a (image_query a) epoch_list
              (sql.all (telescope_query a) (telescopes w)) stages w)
    as [[[] | e] evs w'] eqn:Hloop.
  - rewrite (bindM_ok _ _ _ tt) by (now rewrite Hloop).
    rewrite Hloop. reflexivity.
  - rewrite (bindM_raise _ _ _ e) by (now rewrite Hloop).
    rewrite Hloop. cbn [res events final]. now rewrite app_nil_r.
Qed.

(** C4, as the code has it.  On a command line [argparse] accepts, an epoch
    that [parse_epoch_string] refuses ends the run with that exception
    before the telescope query of line 155 and before any stage: the store
    has been read only by [get_telescope_info], whose answer the command line
    is checked against, and the world is as it was. *)
Theorem epoch_error_before_telescope_query (cmd_args : argv.t)
    (w : World Outside) (a : args.t) (e : exn) :
  parse_args (sql.distinct dbs.Telescope.site (telescopes w))
             (sql.distinct dbs.Telescope.instrument (telescopes w))
             (sql.distinct dbs.Telescope.telescope_id (telescopes w))
             (sql.distinct dbs.Telescope.camera_type (telescopes w))
             cmd_args = Ok a ->
  parse_epoch_string (args.epoch a) = Raise e ->
  main parse_epoch_string construct run cmd_args w =
  {| res := Raise e;
     events := (print_argv :: discovery ++
                [ logs_start_logging (args.log_level a);
                  date_utils_parse_epoch_string (args.epoch a) ])%list;
     final := w |}.
Proof.
  intros Hargs Hepoch. unfold main.
  rewrite bindM_emit.
  rewrite (bindM_ok _ _ _ _ (f_equal res (get_telescope_info_run w))).
  rewrite get_telescope_info_run. cbn [res events final].
  rewrite (bindM_lift_ok _ _ _ _ Hargs).
  unfold reduce. rewrite bindM_emit.
  rewrite (bindM_call_raise _ _ _ _ e) by exact Hepoch.
  reflexivity.
Qed.

(** *** The shape of every run *)

Local Abbreviation run_main := (main parse_epoch_string construct run).
Local Abbreviation run_reduce := (reduce parse_epoch_string construct run).

(** A run is the printing of the command line, the discovery, and then
    either the refusal of the command line or the reduction. *)
Lemma main_cases (cmd_args : argv.t) (w : World Outside) :
  run_main cmd_args w =
  after (print_argv :: discovery)
    match parse_in w cmd_args with
    | Ok a => run_reduce a w
    | Raise e => {| res := Raise e; events := []; final := w |}
    end.
Proof.
  unfold main. rewrite bindM_emit.
  rewrite (bindM_ok _ _ _ _ (f_equal res (get_telescope_info_run w))).
  rewrite get_telescope_info_run. cbn [res events final].
  fold (parse_in w cmd_args).
  destruct (parse_in w cmd_args) as [a | e] eqn:Hargs.
  - rewrite (bindM_lift_ok _ _ _ _ eq_refl). reflexivity.
  - rewrite (bindM_raise _ _ _ e) by reflexivity. reflexivity.
Qed.

Lemma reduce_epoch_raises (a : args.t) (w : World Outside) (e : exn) :
  parse_epoch_string (args.epoch a) = Raise e ->
  run_reduce a w =
  {| res := Raise e;
     events := [ logs_start_logging (args.log_level a);
                 date_utils_parse_epoch_string (args.epoch a) ];
     final := w |}.
Proof.
  intros H. unfold reduce. rewrite bindM_emit.
  rewrite (bindM_call_raise _ _ _ _ e) by exact H. reflexivity.
Qed.

Lemma reduce_stages_raise (a : args.t) (w : World Outside)
    (epoch_list : list Epoch) (e : exn) :
  parse_epoch_string (args.epoch a) = Ok epoch_list ->
  stages_to_do (args.stage a) = Raise e ->
  run_reduce a w =
  {| res := Raise e;
     events := [ logs_start_logging (args.log_level a);
                 date_utils_parse_epoch_string (args.epoch a) ];
     final := w |}.
Proof.
  intros H1 H2. unfold reduce. rewrite bindM_emit.
  rewrite (bindM_call_ok _ _ _ _ epoch_list) by exact H1. cbn [snd].
  rewrite (bindM_raise _ _ _ e) by (cbn; exact H2). rewrite H2. reflexivity.
Qed.

(** The loop makes no call but the construction, the run and the return of
    the stages it is given. *)
Lemma dispatch_events (a : args.t) (q : sql.expression dbs.Image.t)
    (epoch_list : list Epoch) (tels : list dbs.Telescope.t)
    (stages : list string) (w : World Outside) (e : Event Epoch) :
  In e (events (dispatch construct run a q epoch_list tels stages w)) ->
  stage_event a q epoch_list tels stages e.
Proof.
  revert w. induction stages as [| stage rest IH]; intros w Hin.
  - destruct Hin.
  - change (stage :: rest) with ([stage] ++ rest)%list in Hin.
    rewrite dispatch_app in Hin.
    assert (Hhere : In e (events (dispatch construct run a q epoch_list tels
                                     [stage] w)) ->
                    stage_event a q epoch_list tels (stage :: rest) e).
    { intros H. exists stage. split; [now left |].
      destruct (dispatch_one a q epoch_list tels stage w)
        as [[_ Hev] | [e' [_ [Hev | [Hev | Hev]]]]];
        rewrite Hev in H; cbn in H; intuition. }
    destruct (dispatch_one a q epoch_list tels stage w)
      as [[Hok _] | [e' [He _]]].
    + rewrite (bindM_ok _ _ _ _ Hok) in Hin. cbn [events] in Hin.
      apply in_app_or in Hin. destruct Hin as [Hin | Hin]; [auto |].
      destruct (IH _ Hin) as [s [Hs Hkind]].
      exists s. split; [now right | exact Hkind].
    + rewrite (bindM_raise _ _ _ _ He) in Hin. cbn [events] in Hin. auto.
Qed.

Lemma stage_event_no_store (a : args.t) (q : sql.expression dbs.Image.t)
    (epoch_list : list Epoch) (tels : list dbs.Telescope.t)
    (stages : list string) (e : Event Epoch) :
  stage_event a q epoch_list tels stages e ->
  store_access e = false /\ e <> logs_stop_logging.
Proof.
  intros [s [_ [-> | [-> | ->]]]]; split; (reflexivity || discriminate).
Qed.

Lemma filter_none {A} (f : A -> bool) (l : list A) :
  (forall x, In x l -> f x = false) -> List.filter f l = [].
Proof.
  induction l as [| x l IH]; intros H; cbn; [reflexivity |].
  rewrite (H x) by now left. apply IH. intros y Hy. apply H. now right.
Qed.

(** X8.  A stage name the registry does not have ends the loop with
    [KeyError] at the lookup of line 171: nothing is constructed or run for
    it or for the stages after it, and the world is untouched. *)
Theorem dispatch_unknown_stage (a : args.t) (q : sql.expression dbs.Image.t)
    (epoch_list : list Epoch) (tels : list dbs.Telescope.t)
    (stage : string) (rest : list string) (w : World Outside) :
  ~ In stage (keys reduction_stages) ->
  dispatch construct run a q epoch_list tels (stage :: rest) w =
  {| res := Raise (KeyError stage); events := []; final := w |}.
Proof.
  intros H. cbn [dispatch].
  assert (Hget : getitem reduction_stages stage = Raise (KeyError stage))
    by now apply getitem_keys.
  rewrite (bindM_raise _ _ _ (KeyError stage)) by exact Hget.
  reflexivity.
Qed.

(** X9.  A command line that is refused ends the run with exit status 2
    right after the discovery: logging is not started, the epoch is not
    parsed, no stage is touched and the world is as it was. *)
Theorem refused_command_line (cmd_args : argv.t) (w : World Outside) (e : exn) :
  parse_in w cmd_args = Raise e ->
  e = SystemExit 2 /\
  run_main cmd_args w =
  {| res := Raise (SystemExit 2);
     events := print_argv :: discovery;
     final := w |}.
Proof.
  intros H. pose proof (parse_args_raises _ _ _ _ _ _ H) as ->.
  split; [reflexivity |].
  rewrite main_cases, H. reflexivity.
Qed.

(** X11.  A run that goes through: on an accepted command line, with an
    epoch that parses and stages whose constructors and [run]s all return,
    [main] returns after exactly these calls, in this order: the printing,
    the discovery, the start of logging, the epoch parsing, one telescope
    query in its own session, the two logger calls, each stage constructed,
    run and returned in turn, and the end of logging.  Each stage call is
    made in the world the call before it left, the first in the world of the
    start, and the run ends in the world the last [run] left. *)
Theorem main_success_trace (cmd_args : argv.t) (w w' : World Outside)
    (a : args.t) (epoch_list : list Epoch) (stages : list string) :
  parse_in w cmd_args = Ok a ->
  parse_epoch_string (args.epoch a) = Ok epoch_list ->
  stages_to_do (args.stage a) = Ok stages ->
  all_return construct run a (image_query a) epoch_list
    (sql.all (telescope_query a) (telescopes w)) stages w w' ->
  run_main cmd_args w =
  {| res := Ok tt;
     events :=
       (print_argv :: discovery ++ preamble a ++
        flat_map (steps a (image_query a) epoch_list
                    (sql.all (telescope_query a) (telescopes w))) stages ++
        [logs_stop_logging])%list;
     final := w' |}.
Proof.
  intros Hargs Hepoch Hstages Hall.
  rewrite main_cases, Hargs.
  rewrite (reduce_runs_dispatch a w epoch_list stages Hepoch Hstages).
  cbv zeta. rewrite (dispatch_all_return _ _ _ _ _ _ _ Hall).
  reflexivity.
Qed.

Lemma dispatch_no_store (a : args.t) (q : sql.expression dbs.Image.t)
    (epoch_list : list Epoch) (tels : list dbs.Telescope.t)
    (stages : list string) (w : World Outside) :
  List.filter store_access
    (events (dispatch construct run a q epoch_list tels stages w)) = [] /\
  ~ In logs_stop_logging
      (events (dispatch construct run a q epoch_list tels stages w)).
Proof.
  split.
  - apply filter_none. intros e He.
    now apply dispatch_events, stage_event_no_store in He.
  - intros He. apply dispatch_events, stage_event_no_store in He.
    now destruct He.
Qed.


(** X14.  Logging is stopped exactly in the runs that return: a run that
    ends with an exception, from [argparse], from the epoch parsing or from a
    stage, never calls [logs.stop_logging]. *)
Theorem stop_logging_iff_returns (cmd_args : argv.t) (w : World Outside) :
  In logs_stop_logging (events (run_main cmd_args w)) <->
  res (run_main cmd_args w) = Ok tt.
Proof.
  rewrite main_cases. unfold after. cbn [res events].
  assert (Hpre : forall l : list (Event Epoch),
            In logs_stop_logging ((print_argv :: discovery) ++ l)%list <->
            In logs_stop_logging l).
  { intros l. split; intros H.
    - cbn in H. repeat (destruct H as [H | H]; [discriminate |]). exact H.
    - right. apply in_or_app. now right. }
  rewrite Hpre.
  destruct (parse_in w cmd_args) as [a | e] eqn:Hargs.
  2: { cbn. split; [contradiction | discriminate]. }
  destruct (parse_epoch_string (args.epoch a)) as [el | e] eqn:Hepoch.
  2: { rewrite (reduce_epoch_raises a w e Hepoch). cbn.
       split; [intuition discriminate | discriminate]. }
  destruct (stages_to_do (args.stage a)) as [stages | e] eqn:Hstages.
  2: { rewrite (reduce_stages_raise a w el e Hepoch Hstages). cbn.
       split; [intuition discriminate | discriminate]. }
  rewrite (reduce_runs_dispatch a w el stages Hepoch Hstages).
  cbv zeta. cbn [res events].
  pose proof (proj2 (dispatch_no_store a (image_query a) el
                       (sql.all (telescope_query a) (telescopes w)) stages w))
    as Hno.
  destruct (res (dispatch construct run a (image_query a) el
                   (sql.all (telescope_query a) (telescopes w)) stages w))
    as [[] | e]; split; intros H; try reflexivity; try discriminate.
  - apply in_or_app. right. apply in_or_app. right. now left.
  - apply in_app_or in H. destruct H as [H | H].
    + cbn in H. repeat (destruct H as [H | H]; [discriminate |]). destruct H.
    + rewrite app_nil_r in H. contradiction.
Qed.

Lemma dispatch_ignores_image_type t a q (epoch_list : list Epoch) tels stages :
  dispatch construct run (with_image_type t a) q epoch_list tels stages =
  dispatch construct run a q epoch_list tels stages.
Proof.
  induction stages as [| stage rest IH]; cbn [dispatch]; [reflexivity |].
  now rewrite IH.
Qed.

(** X15.  The image type changes nothing in a run: with any other value the
    reduction makes the same calls with the same arguments, ends the same
    and leaves the same world. *)
Theorem image_type_changes_nothing (t : string) (a : args.t)
    (w : World Outside) :
  run_reduce (with_image_type t a) w = run_reduce a w.
Proof.
  unfold reduce.
  change (args.log_level (with_image_type t a)) with (args.log_level a).
  change (args.epoch (with_image_type t a)) with (args.epoch a).
  change (args.stage (with_image_type t a)) with (args.stage a).
  change (telescope_query (with_image_type t a)) with (telescope_query a).
  change (image_query (with_image_type t a)) with (image_query a).
  apply bindM_ext. intros _ w1.
  apply bindM_ext. intros epoch_list w2.
  apply bindM_ext. intros stages w3.
  apply bindM_ext. intros _ w4.
  apply bindM_ext. intros tels w5.
  now rewrite dispatch_ignores_image_type.
Qed.

End DriverProperties.

(** ** The properties on runs in the example environment *)

(** C4 as stated fails: on the epoch "2015-13-45" the run ends with the
    epoch error after the store has been opened, asked four times and closed
    by [get_telescope_info]. *)
Lemma epoch_error_after_store_access :
  res demo.bad_epoch_run = Raise (Raised "InvalidEpochError") /\
  events demo.bad_epoch_run =
    [ print_argv; dbs_get_session;
      query_distinct dbs.Telescope.site;
      query_distinct dbs.Telescope.instrument;
      query_distinct dbs.Telescope.telescope_id;
      query_distinct dbs.Telescope.camera_type;
      session_close;
      logs_start_logging "info";
      date_utils_parse_epoch_string "2015-13-45" ] /\
  List.length (List.filter store_access (events demo.bad_epoch_run)) = 6 /\
  ~ (forall e, In e (events demo.bad_epoch_run) -> store_access e = false).
Proof.
  split; [reflexivity |]. split; [reflexivity |]. split; [reflexivity |].
  intros H. specialize (H dbs_get_session). cbn in H.
  assert (Hf : true = false) by (apply H; right; now left).
  discriminate.
Qed.

Lemma epoch_error_before_telescope_query_witness :
  demo.parse_epoch_string "2015-13-45" = Raise (Raised "InvalidEpochError") /\
  demo.bad_epoch_run =
  {| res := Raise (Raised "InvalidEpochError");
     events := (print_argv :: discovery ++
                [ logs_start_logging "info";
                  date_utils_parse_epoch_string "2015-13-45" ])%list;
     final := demo.world |}.
Proof.
  split; [reflexivity |].
  exact (epoch_error_before_telescope_query string nat StageClass
           demo.parse_epoch_string demo.construct demo.run
           (demo.cmd_args "2015-13-45" None None) demo.world
           {| args.epoch := "2015-13-45"; args.telescope := "";
              args.instrument := ""; args.site := ""; args.camera_type := "";
              args.stage := ""; args.raw_path := "/archive/engineering";
              args.processed_path := "/nethome/supernova/pylcogt";
              args.filter := ""; args.binning := ""; args.image_type := "";
              args.log_level := "info"; args.ncpus := 1 |}
           (Raised "InvalidEpochError") eq_refl eq_refl).
Defined.

(** Two command lines that differ in [--ncpus] alone give the same run. *)
Example ncpus_one_or_eight :
  main demo.parse_epoch_string demo.construct demo.run
       (demo.cmd_args "20151001" (Some "make_bias") (Some "1")) demo.world =
  main demo.parse_epoch_string demo.construct demo.run
       (demo.cmd_args "20151001" (Some "make_bias") (Some "8")) demo.world.
Proof. reflexivity. Qed.

Lemma no_criteria_match_all_witness :
  no_criteria (demo.parsed "" "" "" "" "info" 1) /\
  telescope_query (demo.parsed "" "" "" "" "info" 1) = sql.true_ /\
  image_query (demo.parsed "" "" "" "" "info" 1) = sql.true_.
Proof.
  assert (H : no_criteria (demo.parsed "" "" "" "" "info" 1))
    by (repeat split).
  split; [exact H |].
  split; apply (no_criteria_match_all _ H).
Defined.

Lemma telescope_query_depends_on_four_witness :
  same_telescope_criteria (demo.parsed "lsc" "rp" "2x2" "BIAS" "debug" 8)
                          (demo.parsed "lsc" "" "" "" "info" 1) /\
  telescope_query (demo.parsed "lsc" "rp" "2x2" "BIAS" "debug" 8) =
  telescope_query (demo.parsed "lsc" "" "" "" "info" 1).
Proof.
  assert (H : same_telescope_criteria
                (demo.parsed "lsc" "rp" "2x2" "BIAS" "debug" 8)
                (demo.parsed "lsc" "" "" "" "info" 1))
    by (repeat split).
  split; [exact H |].
  apply (telescope_query_depends_on_four _ _ H).
Defined.

Lemma dispatch_in_order_until_raise_witness :
  all_return demo.construct demo.run (demo.parsed "" "" "" "" "info" 1)
    sql.true_ ["20151001"] (telescopes demo.world)
    ["make_bias"; "subtract_bias"] demo.world
    {| telescopes := telescopes demo.world; outside := 2 |} /\
  stage_raises demo.construct demo.run (demo.parsed "" "" "" "" "info" 1)
    sql.true_ ["20151001"] (telescopes demo.world)
    "trim" {| telescopes := telescopes demo.world; outside := 2 |}
    (Raised "IOError")
    [ stage_init "trim" "/archive/engineering" "/nethome/supernova/pylcogt"
        sql.true_;
      stage_run "trim" ["20151001"] (telescopes demo.world) ]
    {| telescopes := telescopes demo.world; outside := 2 |} /\
  demo.loop ["make_bias"; "subtract_bias"; "trim"; "make_dark"] demo.world =
  {| res := Raise (Raised "IOError");
     events :=
       (flat_map (steps (demo.parsed "" "" "" "" "info" 1) sql.true_
                    ["20151001"] (telescopes demo.world))
                 ["make_bias"; "subtract_bias"] ++
        [ stage_init "trim" "/archive/engineering" "/nethome/supernova/pylcogt"
            sql.true_;
          stage_run "trim" ["20151001"] (telescopes demo.world) ])%list;
     final := {| telescopes := telescopes demo.world; outside := 2 |} |} /\
  demo.loop ["make_bias"; "subtract_bias"] demo.world =
  {| res := Ok tt;
     events := flat_map (steps (demo.parsed "" "" "" "" "info" 1) sql.true_
                           ["20151001"] (telescopes demo.world))
                        ["make_bias"; "subtract_bias"];
     final := {| telescopes := telescopes demo.world; outside := 2 |} |}.
Proof.
  assert (H1 : all_return demo.construct demo.run
                 (demo.parsed "" "" "" "" "info" 1)
                 sql.true_ ["20151001"] (telescopes demo.world)
                 ["make_bias"; "subtract_bias"] demo.world
                 {| telescopes := telescopes demo.world; outside := 2 |}).
  { eapply all_return_cons; [reflexivity | reflexivity | reflexivity |].
    eapply all_return_cons; [reflexivity | reflexivity | reflexivity |].
    apply all_return_nil. }
  assert (H2 : stage_raises demo.construct demo.run
                 (demo.parsed "" "" "" "" "info" 1)
                 sql.true_ ["20151001"] (telescopes demo.world)
                 "trim" {| telescopes := telescopes demo.world; outside := 2 |}
                 (Raised "IOError")
                 [ stage_init "trim" "/archive/engineering"
                     "/nethome/supernova/pylcogt" sql.true_;
                   stage_run "trim" ["20151001"] (telescopes demo.world) ]
                 {| telescopes := telescopes demo.world; outside := 2 |}).
  { eapply raises_in_run; reflexivity. }
  split; [exact H1 |]. split; [exact H2 |]. split.
  - exact (proj1 (proj1 (proj2 (dispatch_in_order_until_raise string nat
             StageClass demo.construct demo.run
             (demo.parsed "" "" "" "" "info" 1)
             sql.true_ ["20151001"] (telescopes demo.world)))
             ["make_bias"; "subtract_bias"] "trim" ["make_dark"] demo.world
             _ _ _ _ H1 H2)).
  - exact (proj1 (dispatch_in_order_until_raise string nat StageClass
             demo.construct demo.run (demo.parsed "" "" "" "" "info" 1)
             sql.true_ ["20151001"] (telescopes demo.world))
             ["make_bias"; "subtract_bias"] demo.world _ H1).
Defined.

(** ** Further properties on the discovery and on example runs *)

(** X16.  [get_telescope_info] returns, for each of the four columns, the
    values the telescope table has in it, each once; it leaves the world as
    it was.  On an empty table the four lists are empty. *)
Theorem get_telescope_info_lists (Epoch Outside : Type) (w : World Outside) :
  exists all_sites all_instruments all_telescope_ids all_camera_types,
    res (get_telescope_info Epoch Outside w) =
      Ok (all_sites, all_instruments, all_telescope_ids, all_camera_types) /\
    final (get_telescope_info Epoch Outside w) = w /\
    (NoDup all_sites /\ NoDup all_instruments /\
     NoDup all_telescope_ids /\ NoDup all_camera_types) /\
    (forall v, In v all_sites <-> in_column dbs.Telescope.site (telescopes w) v) /\
    (forall v, In v all_instruments <->
               in_column dbs.Telescope.instrument (telescopes w) v) /\
    (forall v, In v all_telescope_ids <->
               in_column dbs.Telescope.telescope_id (telescopes w) v) /\
    (forall v, In v all_camera_types <->
               in_column dbs.Telescope.camera_type (telescopes w) v) /\
    (telescopes w = [] <->
     all_telescope_ids = [] /\ all_sites = [] /\
     all_instruments = [] /\ all_camera_types = []).
Proof.
  rewrite get_telescope_info_run. cbn [res final].
  do 4 eexists. split; [reflexivity |]. split; [reflexivity |].
  split; [repeat split; apply NoDup_nodup |].
  repeat (split; [intros v; apply distinct_spec |]).
  split.
  - intros ->. repeat split.
  - intros [H _]. destruct (telescopes w) as [| t table]; [reflexivity |].
    assert (Hin : In (dbs.Telescope.telescope_id t)
                     (sql.distinct dbs.Telescope.telescope_id (t :: table))).
    { apply distinct_spec. exists t. split; [now left | reflexivity]. }
    rewrite H in Hin. destruct Hin.
Qed.

Lemma accepted_criteria_in_store_witness :
  parse_in demo.world lsc_cmd_args = Ok lsc_args /\
  absent_or_in_column dbs.Telescope.site (telescopes demo.world)
    (Some "lsc") "lsc".
Proof.
  assert (H : parse_in demo.world lsc_cmd_args = Ok lsc_args) by reflexivity.
  split; [exact H |].
  exact (proj1 (accepted_criteria_in_store demo.world lsc_cmd_args lsc_args H)).
Defined.

Lemma accepted_stage_is_dispatchable_witness :
  parse_in demo.world lsc_cmd_args = Ok lsc_args /\
  exists stages,
    stages_to_do "make_bias" = Ok stages /\
    (stages = keys reduction_stages \/ stages = ["make_bias"]) /\
    NoDup stages /\
    forall stage, In stage stages ->
      exists cls, getitem reduction_stages stage = Ok cls.
Proof.
  assert (H : parse_in demo.world lsc_cmd_args = Ok lsc_args) by reflexivity.
  split; [exact H |].
  exact (accepted_stage_is_dispatchable
           (sql.distinct dbs.Telescope.site (telescopes demo.world))
           (sql.distinct dbs.Telescope.instrument (telescopes demo.world))
           (sql.distinct dbs.Telescope.telescope_id (telescopes demo.world))
           (sql.distinct dbs.Telescope.camera_type (telescopes demo.world))
           lsc_cmd_args lsc_args H).
Defined.

Lemma accepted_binning_witness :
  parse_in demo.world lsc_cmd_args = Ok lsc_args /\
  image_query lsc_args =
    sql.and_ (and_if_set sql.true_ dbs.Image.filter_name "")
             (sql.eq dbs.Image.ccdsum "2 2").
Proof.
  assert (H : parse_in demo.world lsc_cmd_args = Ok lsc_args) by reflexivity.
  split; [exact H |].
  destruct (accepted_binning
              (sql.distinct dbs.Telescope.site (telescopes demo.world))
              (sql.distinct dbs.Telescope.instrument (telescopes demo.world))
              (sql.distinct dbs.Telescope.telescope_id (telescopes demo.world))
              (sql.distinct dbs.Telescope.camera_type (telescopes demo.world))
              lsc_cmd_args lsc_args H)
    as [[Hb _] | [[Hb _] | [_ [Hq _]]]].
  - discriminate Hb.
  - discriminate Hb.
  - exact Hq.
Defined.

Lemma dispatch_unknown_stage_witness :
  ~ In "unknown_stage" (keys reduction_stages) /\
  demo.loop ["unknown_stage"; "trim"] demo.world =
  {| res := Raise (KeyError "unknown_stage"); events := []; final := demo.world |}.
Proof.
  assert (H : ~ In "unknown_stage" (keys reduction_stages))
    by (cbn; intuition discriminate).
  split; [exact H |].
  exact (dispatch_unknown_stage string nat StageClass demo.construct demo.run
           (demo.parsed "" "" "" "" "info" 1) sql.true_ ["20151001"]
           (telescopes demo.world) "unknown_stage" ["trim"] demo.world H).
Defined.

Lemma refused_command_line_witness :
  parse_in demo.world (demo.cmd_args "20151001" (Some "make_bias-trim") None) =
    Raise (SystemExit 2) /\
  main demo.parse_epoch_string demo.construct demo.run
       (demo.cmd_args "20151001" (Some "make_bias-trim") None) demo.world =
  {| res := Raise (SystemExit 2);
     events := print_argv :: discovery;
     final := demo.world |}.
Proof.
  assert (H : parse_in demo.world
                (demo.cmd_args "20151001" (Some "make_bias-trim") None) =
              Raise (SystemExit 2)) by reflexivity.
  split; [exact H |].
  exact (proj2 (refused_command_line string nat StageClass
                  demo.parse_epoch_string demo.construct demo.run
                  _ demo.world _ H)).
Defined.

Lemma main_success_trace_witness :
  parse_in demo.world lsc_cmd_args = Ok lsc_args /\
  all_return demo.construct demo.run lsc_args (image_query lsc_args)
    ["20151001"] (sql.all (telescope_query lsc_args) (telescopes demo.world))
    ["make_bias"] demo.world
    {| telescopes := telescopes demo.world; outside := 1 |} /\
  main demo.parse_epoch_string demo.construct demo.run lsc_cmd_args demo.world =
  {| res := Ok tt;
     events :=
       (print_argv :: discovery ++ preamble lsc_args ++
        steps lsc_args (image_query lsc_args) ["20151001"]
          (sql.all (telescope_query lsc_args) (telescopes demo.world))
          "make_bias" ++
        [logs_stop_logging])%list;
     final := {| telescopes := telescopes demo.world; outside := 1 |} |}.
Proof.
  assert (H : parse_in demo.world lsc_cmd_args = Ok lsc_args) by reflexivity.
  assert (Hall : all_return demo.construct demo.run lsc_args
                   (image_query lsc_args) ["20151001"]
                   (sql.all (telescope_query lsc_args) (telescopes demo.world))
                   ["make_bias"] demo.world
                   {| telescopes := telescopes demo.world; outside := 1 |}).
  { eapply all_return_cons; [reflexivity | reflexivity | reflexivity |].
    apply all_return_nil. }
  split; [exact H |]. split; [exact Hall |].
  exact (main_success_trace string nat StageClass
           demo.parse_epoch_string demo.construct demo.run
           lsc_cmd_args demo.world _ lsc_args ["20151001"] ["make_bias"]
           H eq_refl eq_refl Hall).
Defined.


(** ** What the stages are called with *)

Section SameCalls.

Variables Epoch Outside Processor : Type.
Variable parse_epoch_string : string -> result (list Epoch).
Variables construct construct' :
  StageClass -> string -> string -> sql.expression dbs.Image.t ->
  World Outside -> result Processor * World Outside.
Variables run run' :
  Processor -> list Epoch -> list dbs.Telescope.t ->
  World Outside -> result unit * World Outside.

Lemma bindM_call_same {A B} (ev : Event Epoch)
    (f f' : World Outside -> result A * World Outside)
    (k k' : A -> M Epoch Outside B) (w : World Outside) :
  f w = f' w ->
  (forall x w', k x w' = k' x w') ->
  bindM (call ev f) k w = bindM (call ev f') k' w.
Proof.
  intros Hf Hk. unfold bindM, call. cbn [res events final]. rewrite Hf.
  destruct (fst (f' w)); [now rewrite Hk | reflexivity].
Qed.

(** Two pairs of collaborators that agree on the arguments the loop passes
    give the same loop. *)
Lemma dispatch_same_calls (a : args.t) (q : sql.expression dbs.Image.t)
    (epoch_list : list Epoch) (tels : list dbs.Telescope.t) :
  (forall cls w,
     construct cls (args.raw_path a) (args.processed_path a) q w =
     construct' cls (args.raw_path a) (args.processed_path a) q w) ->
  (forall p w, run p epoch_list tels w = run' p epoch_list tels w) ->
  forall stages w,
    dispatch construct run a q epoch_list tels stages w =
    dispatch construct' run' a q epoch_list tels stages w.
Proof.
  intros Hnew Hrun stages.
  induction stages as [| stage rest IH]; intros w; [reflexivity |].
  cbn [dispatch]. apply bindM_ext. intros cls w1.
  apply bindM_call_same; [apply Hnew |]. intros p w2.
  apply bindM_call_same; [apply Hrun |]. intros _ w3.
  apply bindM_ext. intros _ w4. apply IH.
Qed.

(** X12.  What a stage is called with.  A run of the reduction uses the
    constructors only on the two paths and the image query of the parsed
    arguments, and the [run] methods only on the list the epoch parsed to and
    the telescopes the query finds in the store as it is at the start: with
    other constructors and [run] methods that do the same on these arguments,
    whatever they do on others, the run makes the same calls, ends the same
    and leaves the same world. *)
Theorem stage_calls_arguments (a : args.t) (w : World Outside) :
  (forall cls w',
     construct cls (args.raw_path a) (args.processed_path a) (image_query a) w' =
     construct' cls (args.raw_path a) (args.processed_path a) (image_query a) w') ->
  (forall p epoch_list w',
     parse_epoch_string (args.epoch a) = Ok epoch_list ->
     run p epoch_list (sql.all (telescope_query a) (telescopes w)) w' =
     run' p epoch_list (sql.all (telescope_query a) (telescopes w)) w') ->
  reduce parse_epoch_string construct run a w =
  reduce parse_epoch_string construct' run' a w.
Proof.
  intros Hnew Hrun.
  destruct (parse_epoch_string (args.epoch a)) as [el | e] eqn:Hepoch.
  2: { rewrite (reduce_epoch_raises _ _ _ _ construct run a w e Hepoch).
       rewrite (reduce_epoch_raises _ _ _ _ construct' run' a w e Hepoch).
       reflexivity. }
  destruct (stages_to_do (args.stage a)) as [stages | e] eqn:Hstages.
  2: { rewrite (reduce_stages_raise _ _ _ _ construct run a w el e Hepoch Hstages).
       rewrite (reduce_stages_raise _ _ _ _ construct' run' a w el e Hepoch Hstages).
       reflexivity. }
  rewrite (reduce_runs_dispatch _ _ _ _ construct run a w el stages Hepoch Hstages).
  rewrite (reduce_runs_dispatch _ _ _ _ construct' run' a w el stages Hepoch Hstages).
  cbv zeta.
  rewrite (dispatch_same_calls a (image_query a) el
             (sql.all (telescope_query a) (telescopes w)) Hnew
             (fun p w' => Hrun p el w' eq_refl) stages w).
  reflexivity.
Qed.

End SameCalls.

Lemma stage_calls_arguments_witness :
  (forall cls w',
     demo.construct cls (args.raw_path lsc_args) (args.processed_path lsc_args)
       (image_query lsc_args) w' =
     picky_construct cls (args.raw_path lsc_args) (args.processed_path lsc_args)
       (image_query lsc_args) w') /\
  (forall p epoch_list w',
     demo.parse_epoch_string (args.epoch lsc_args) = Ok epoch_list ->
     demo.run p epoch_list
       (sql.all (telescope_query lsc_args) (telescopes demo.world)) w' =
     picky_run p epoch_list
       (sql.all (telescope_query lsc_args) (telescopes demo.world)) w') /\
  reduce demo.parse_epoch_string demo.construct demo.run lsc_args demo.world =
  reduce demo.parse_epoch_string picky_construct picky_run lsc_args demo.world.
Proof.
  assert (H1 : forall cls w',
            demo.construct cls (args.raw_path lsc_args)
              (args.processed_path lsc_args) (image_query lsc_args) w' =
            picky_construct cls (args.raw_path lsc_args)
              (args.processed_path lsc_args) (image_query lsc_args) w')
    by (intros; reflexivity).
  assert (H2 : forall p epoch_list w',
            demo.parse_epoch_string (args.epoch lsc_args) = Ok epoch_list ->
            demo.run p epoch_list
              (sql.all (telescope_query lsc_args) (telescopes demo.world)) w' =
            picky_run p epoch_list
              (sql.all (telescope_query lsc_args) (telescopes demo.world)) w').
  { intros p epoch_list w' H. injection H as <-. reflexivity. }
  split; [exact H1 |]. split; [exact H2 |].
  exact (stage_calls_arguments string nat StageClass demo.parse_epoch_string
           demo.construct picky_construct demo.run picky_run
           lsc_args demo.world H1 H2).
Defined.
